(** * Verification of [scripts/smart_updater.py]

    A shallow embedding of the incremental content updater: the store
    (load / save of [data/content.json]), the three source adapters and
    the deduplicate-and-prepend merge performed by [smart_update].

    Python dictionaries are finite maps from field names to values, lists
    are lists, and the effects of the script (the data file, the clock,
    the video platform API, what is printed) are threaded through a small
    state-and-exception monad. *)

From stdpp Require Import base option list strings gmap.

Open Scope string_scope.
Open Scope list_scope.

(** ** Values

    A Python [str] is a sequence of Unicode code points; slicing counts
    code points, so a [str] is a list of code points here.  Field names
    are only ever compared, never sliced: they are kept as [string]. *)

Abbreviation str := (list N).

Definition lit (s : string) : str :=
  Ascii.N_of_ascii <$> String.list_ascii_of_string s.

(** The values the items of section 3 of the specification carry: text,
    a list of tags, or [None].  Python's [==] on these is structural. *)
Inductive value :=
  | VNone
  | VStr (s : str)
  | VList (l : list str).

#[global] Instance value_eq_dec : EqDecision value.
Proof. solve_decision. Defined.

#[global] Instance value_inhabited : Inhabited value := populate VNone.

Abbreviation Item := (gmap string value).

(** [k in d] *)
Definition contains (k : string) (d : Item) : bool :=
  if d !! k is Some _ then true else false.

(** [a == b] *)
Definition py_eq (a b : value) : bool := bool_decide (a = b).

(** [bool(d)] for a dictionary or [None]: an empty dictionary is falsy. *)
Definition truthy (d : option Item) : bool :=
  match d with
  | Some m => negb (bool_decide (m = ∅))
  | None => false
  end.

(** ** The merge engine *)

(** [is_duplicate(item, existing_items, key)], lines 42-51.  The [url]
    comparison sits in the [elif] of the key-presence test: it is reached
    only when [key] is missing from one of the two items. *)
Fixpoint is_duplicate (item : Item) (existing_items : list Item)
    (key : string) : bool :=
  match existing_items with
  | [] => false
  | existing :: rest =>
      if contains key item && contains key existing then
        if py_eq (item !!! key) (existing !!! key) then true
        else is_duplicate item rest key
      else if contains "url" item && contains "url" existing then
        if py_eq (item !!! "url") (existing !!! "url") then true
        else is_duplicate item rest key
      else is_duplicate item rest key
  end.

(** One iteration of the loops at lines 174-177 and 187-190:
    [if not is_duplicate(c, lst, key): lst.insert(0, c); new_items += 1]. *)
Definition merge_step (key : string) (st : list Item * nat) (c : Item)
    : list Item * nat :=
  if is_duplicate c st.1 key then st else (c :: st.1, S st.2).

(** The whole loop, started with the list and the counter it finds. *)
Definition merge_loop (key : string) (candidates : list Item)
    (st : list Item * nat) : list Item * nat :=
  fold_left (merge_step key) candidates st.

(** The merge of section 4.3: the loop run against [existing] with a
    fresh counter; the result is (updated list, count added). *)
Definition dedupe_and_merge (candidates existing : list Item)
    (key : string) : list Item * nat :=
  merge_loop key candidates (existing, 0).

(** The condition of line 164:
    [daily_quote and not is_duplicate(daily_quote, data['quotes'])],
    with the default key ['content']. *)
Definition quote_is_new (daily_quote : option Item) (quotes : list Item)
    : bool :=
  match daily_quote with
  | Some q => truthy daily_quote && negb (is_duplicate q quotes "content")
  | None => false
  end.

(** The quote branch, lines 164-166: one optional candidate. *)
Definition merge_quote (daily_quote : option Item) (st : list Item * nat)
    : list Item * nat :=
  match daily_quote with
  | Some q => if quote_is_new daily_quote st.1 then (q :: st.1, S st.2) else st
  | None => st
  end.

(** Small items used in the examples. *)
Definition mk (fields : list (string * string)) : Item :=
  list_to_map ((λ kv, (kv.1, VStr (lit kv.2))) <$> fields).

(** ** The store and the outside world *)

(** What kind of JSON value [data] is: a dictionary, with the keys
    among ['quotes'], ['videos'] and ['articles'] that it lacks, or
    something else (a list, [null], a number, a string). *)
Inductive json_shape :=
  | Dict (lacks : list string)
  | NotDict.

(** The document of [data/content.json] (section 6), as [json.load]
    returns it and as the script sees it through its subscripts: three
    item lists, a nullable timestamp, and the shape of the value.  The
    document of section 6 has the shape [Dict []]; under a key the
    dictionary lacks, and in a value that is no dictionary, the list
    fields stand for nothing.  A dictionary without ['last_updated']
    behaves as one where it is [null]: the key is only ever assigned. *)
Record ContentStore := {
  quotes : list Item;
  articles : list Item;
  videos : list Item;
  last_updated : option str;
  shape : json_shape;
}.

(** The dictionary [load_existing_data] builds when there is no file. *)
Definition fresh_store : ContentStore :=
  {| quotes := []; articles := []; videos := []; last_updated := None;
     shape := Dict [] |}.

(** The exceptions (all subclasses of [Exception]) the script can meet. *)
Inductive exn :=
  | FileNotFoundError
  | PermissionError
  | JSONDecodeError
  | KeyError (k : string)
  | TypeError
  | UnicodeEncodeError
  | HttpError.

(** What is at [DATA_FILE], as [open] and [json.load] see it. *)
Inductive file_state :=
  | Missing                     (* no such file *)
  | Denied                      (* the file cannot be opened *)
  | Garbled                     (* the file opens, its text is not JSON *)
  | Stored (d : ContentStore).  (* the file holds JSON text, and
                                   [json.load] returns [d] *)

(** Whether [save_data] can write: the directory [data/] can be made
    and the file opened for writing; the directory is there but the file
    cannot be opened for writing; the directory is missing and cannot be
    made. *)
Inductive write_access :=
  | ReadWrite
  | ReadOnly
  | NoDirectory.

(** One constructor per [print] of the script. *)
Inductive log_line :=
  | Rule | Starting
  | QuoteHeader | CheckingQuote | QuoteFetched | QuoteError (e : exn)
  | QuoteAdded | QuoteExistsOrFailed
  | VideosHeader | NoApiKey | CheckingVideos | FoundVideos (n : nat)
  | VideoError (e : exn) | AddedVideos (n : nat) | NoNewVideos
  | ArticlesHeader | CheckingArticles | ArticlePlaceholder
  | ArticleError (e : exn) | AddedArticles (n : nat) | NoNewArticles
  | ClosingRule | UpdateComplete (n : nat) | TotalContent (q v a : nat)
  | NoNewContent.

(** The mutable world: the data file, whether it can be written, every
    document [json.dump] has written in full so far (oldest first), and
    the lines printed (oldest first). *)
Record world := {
  disk : file_state;
  access : write_access;
  dumps : list ContentStore;
  stdout : list log_line;
}.

(** One search result of the video platform, with the five fields the
    script subscripts; [None] is a field the response does not carry. *)
Record search_result := {
  snippet_title : option str;
  snippet_description : option str;
  id_videoId : option str;
  snippet_thumbnails_high_url : option str;
  snippet_publishedAt : option str;
}.

Record response := { items : option (list search_result) }.

(** The arguments of [youtube.search().list(...)]. *)
Record request := {
  part : str;
  channelId : str;
  maxResults : nat;
  order : str;
  publishedAfter : str;
  type_ : str;
}.

Inductive outcome (A : Type) :=
  | Return (a : A)
  | Raise (e : exn).
Arguments Return {A} a.
Arguments Raise {A} e.

(** What a run reads and does not change: the configuration, the clock
    and the answer of the video platform to a request. *)
Record env := {
  YOUTUBE_API_KEY : str;
  today : str;           (* datetime.now().strftime('%Y-%m-%d') *)
  now_iso : str;         (* datetime.now().isoformat() *)
  yesterday_iso : str;   (* (datetime.now() - timedelta(days=1)).isoformat() *)
  execute : request → outcome response;
}.

Definition YOUTUBE_CHANNEL_ID : str := lit "UCcYzLCs3zrQIBVHYA1sK2sw".

(** ** A state-and-exception monad for the script *)

Definition M (A : Type) : Type := world → outcome A * world.

#[global] Instance M_ret : MRet M := λ A a w, (Return a, w).
#[global] Instance M_bind : MBind M := λ A B f m w,
  match m w with
  | (Return a, w') => f a w'
  | (Raise e, w') => (Raise e, w')
  end.

#[global] Instance outcome_ret : MRet outcome := λ A a, Return a.
#[global] Instance outcome_bind : MBind outcome := λ A B f m,
  match m with
  | Return a => f a
  | Raise e => Raise e
  end.

Definition raise {A} (e : exn) : M A := λ w, (Raise e, w).

Definition lift {A} (o : outcome A) : M A := λ w, (o, w).

(** [try: body  except Exception as e: handler(e)] *)
Definition try_except {A} (body : M A) (handler : exn → M A) : M A := λ w,
  match body w with
  | (Return a, w') => (Return a, w')
  | (Raise e, w') => handler e w'
  end.

Definition print (l : log_line) : M unit := λ w,
  (Return (), {| disk := disk w; access := access w; dumps := dumps w;
                 stdout := stdout w ++ [l] |}).

(** [with open(DATA_FILE, 'r') as f: return json.load(f)] *)
Definition read_json : M ContentStore := λ w,
  match disk w with
  | Missing => (Raise FileNotFoundError, w)
  | Denied => (Raise PermissionError, w)
  | Garbled => (Raise JSONDecodeError, w)
  | Stored d => (Return d, w)
  end.

(** UTF-8 has no encoding for a lone surrogate; every other code point
    of a Python [str] can be written. *)
Definition encodable_char (c : N) : bool :=
  negb ((55296 <=? c)%N && (c <=? 57343)%N).

Definition encodable_str (t : str) : bool := forallb encodable_char t.

Definition encodable_value (v : value) : bool :=
  match v with
  | VNone => true
  | VStr t => encodable_str t
  | VList l => forallb encodable_str l
  end.

Definition encodable_item (d : Item) : bool :=
  forallb (λ kv, encodable_value kv.2) (map_to_list d).

(** What [data[k]] raises, if anything: [TypeError] on a value that is
    no dictionary, [KeyError] on a dictionary without the key. *)
Definition subscript_error (data : ContentStore) (k : string) : option exn :=
  match shape data with
  | NotDict => Some TypeError
  | Dict lacks => if bool_decide (k ∈ lacks) then Some (KeyError k) else None
  end.

(** The list under [k], one of ['quotes'], ['videos'], ['articles']. *)
Definition field (k : string) (data : ContentStore) : list Item :=
  if bool_decide (k = "quotes") then quotes data
  else if bool_decide (k = "videos") then videos data
  else if bool_decide (k = "articles") then articles data
  else [].

(** [data[k]] *)
Definition getitem (data : ContentStore) (k : string) : M (list Item) := λ w,
  match subscript_error data k with
  | Some ex => (Raise ex, w)
  | None => (Return (field k data), w)
  end.

(** The text [json.dump] produces for [data] can be encoded: every
    string under a key the dictionary has, and the timestamp. *)
Definition encodable (data : ContentStore) : bool :=
  forallb (λ k, match subscript_error data k with
                | None => forallb encodable_item (field k data)
                | Some _ => true
                end) ["quotes"; "articles"; "videos"]
  && from_option encodable_str true (last_updated data).

(** [os.makedirs(os.path.dirname(DATA_FILE), exist_ok=True)], line 37 *)
Definition makedirs : M unit := λ w,
  match access w with
  | NoDirectory => (Raise PermissionError, w)
  | _ => (Return (), w)
  end.

(** [data['last_updated'] = t], line 38: an item assignment, which a
    value that is no dictionary does not support. *)
Definition set_last_updated (data : ContentStore) (t : str)
    : M ContentStore := λ w,
  match shape data with
  | NotDict => (Raise TypeError, w)
  | Dict _ => (Return {| quotes := quotes data; articles := articles data;
                         videos := videos data; last_updated := Some t;
                         shape := shape data |}, w)
  end.

(** [with open(DATA_FILE, 'w', encoding='utf-8') as f:
       json.dump(data, f, indent=2, ensure_ascii=False)], lines 39-40.
    Opening fails on a file that cannot be written and leaves it as it
    is.  Once the file is open its old text is gone; when a string
    cannot be encoded the dump stops half way, leaving text that is not
    JSON. *)
Definition write_json (data : ContentStore) : M unit := λ w,
  match access w with
  | ReadWrite =>
      if encodable data then
        (Return (), {| disk := Stored data; access := access w;
                       dumps := dumps w ++ [data]; stdout := stdout w |})
      else
        (Raise UnicodeEncodeError,
         {| disk := Garbled; access := access w; dumps := dumps w;
            stdout := stdout w |})
  | _ => (Raise PermissionError, w)
  end.

(** [load_existing_data()], lines 22-33: only [FileNotFoundError] is
    handled, any other exception leaves the function. *)
Definition load_existing_data : M ContentStore :=
  try_except read_json
    (λ e, match e with
          | FileNotFoundError => mret fresh_store
          | _ => raise e
          end).

(** [save_data(data)], lines 35-40.  The dictionary is stamped in place
    before it is dumped; the stamped dictionary is returned so that the
    caller keeps seeing it. *)
Definition save_data (e : env) (data : ContentStore) : M ContentStore :=
  makedirs;;
  data ← set_last_updated data (now_iso e);
  write_json data;;
  mret data.

(** ** The source adapters *)

(** [fetch_daily_quote()], lines 53-80. *)
Definition daily_quote_item (e : env) : Item :=
  <["content" := VStr (lit "Daily wisdom from Sadhguru - " ++ today e)]>
  (<["source" := VStr (lit "Instagram @sadhguru")]>
  (<["url" := VStr (lit "https://www.instagram.com/sadhguru/")]>
  (<["date" := VStr (today e)]>
  (<["tags" := VList [lit "daily"; lit "wisdom"]]>
  (<["type" := VStr (lit "quote")]> ∅))))).

Definition fetch_daily_quote (e : env) : M (option Item) :=
  try_except
    (print CheckingQuote;;
     let quote := daily_quote_item e in
     print QuoteFetched;;
     mret (Some quote))
    (λ ex, print (QuoteError ex);; mret None).

(** [d[k]] on a search result: a missing field raises [KeyError]. *)
Definition subscript (k : string) (field : option str) : outcome str :=
  match field with
  | Some s => Return s
  | None => Raise (KeyError k)
  end.

(** The dictionary of lines 108-117, its fields evaluated in order. *)
Definition video_of (r : search_result) : outcome Item :=
  title ← subscript "title" (snippet_title r);
  description ← subscript "description" (snippet_description r);
  videoId ← subscript "videoId" (id_videoId r);
  thumbnail ← subscript "thumbnails" (snippet_thumbnails_high_url r);
  publishedAt ← subscript "publishedAt" (snippet_publishedAt r);
  mret (<["title" := VStr title]>
       (<["description" := VStr (take 300 description)]>
       (<["url" := VStr (lit "https://www.youtube.com/watch?v=" ++ videoId)]>
       (<["thumbnail" := VStr thumbnail]>
       (<["date" := VStr (take 10 publishedAt)]>
       (<["source" := VStr (lit "YouTube Official")]>
       (<["tags" := VList [lit "video"; lit "youtube"]]>
       (<["type" := VStr (lit "video")]> (∅ : Item))))))))).

(** The loop of lines 107-118: [videos.append(video)] per result. *)
Fixpoint map_results (rs : list search_result) (videos : list Item)
    : outcome (list Item) :=
  match rs with
  | [] => Return videos
  | r :: rs' =>
      match video_of r with
      | Return video => map_results rs' (videos ++ [video])
      | Raise ex => Raise ex
      end
  end.

Definition search_request (e : env) : request :=
  {| part := lit "snippet";
     channelId := YOUTUBE_CHANNEL_ID;
     maxResults := 10;
     order := lit "date";
     publishedAfter := yesterday_iso e ++ lit "Z";
     type_ := lit "video" |}.

(** [fetch_recent_youtube_videos()], lines 82-125. *)
Definition fetch_recent_youtube_videos (e : env) : M (list Item) :=
  if bool_decide (YOUTUBE_API_KEY e = []) then
    print NoApiKey;; mret []
  else
    try_except
      (print CheckingVideos;;
       response ← lift (execute e (search_request e));
       videos ← lift (map_results (default [] (items response)) []);
       print (FoundVideos (length videos));;
       mret videos)
      (λ ex, print (VideoError ex);; mret []).

(** [fetch_recent_articles()], lines 127-149: the placeholder. *)
Definition fetch_recent_articles : M (list Item) :=
  try_except
    (print CheckingArticles;;
     print ArticlePlaceholder;;
     mret [])
    (λ ex, print (ArticleError ex);; mret []).

(** ** The run *)

(** Lines 164-166: [data['quotes']] is evaluated when the quote is
    truthy, and only then. *)
Definition merge_daily_quote (data : ContentStore)
    (daily_quote : option Item) (new_items : nat) : M (list Item * nat) :=
  if truthy daily_quote then
    existing ← getitem data "quotes";
    mret (merge_quote daily_quote (existing, new_items))
  else mret (quotes data, new_items).

(** The loops of lines 174-177 and 187-190 over [data[k]].  The
    subscript is evaluated at each turn of the loop, so never for an
    empty candidate list; the keys of [data] do not change during a run,
    so it fails at the first turn or never. *)
Definition merge_into (data : ContentStore) (k : string)
    (candidates : list Item) (new_items : nat) : M (list Item * nat) :=
  if candidates is [] then mret (field k data, new_items)
  else
    existing ← getitem data k;
    mret (merge_loop "url" candidates (existing, new_items)).

(** Lines 157-195 of [smart_update]: load, fetch and merge.  The result
    is the dictionary [data] and the counter [new_items] as they stand
    when line 197 is reached. *)
Definition gather (e : env) : M (ContentStore * nat) :=
  print Rule;; print Starting;; print Rule;;
  data ← load_existing_data;
  let new_items := 0 in
  print QuoteHeader;;
  daily_quote ← fetch_daily_quote e;
  '(qs, new_items) ← merge_daily_quote data daily_quote new_items;
  print (if quote_is_new daily_quote (quotes data)
         then QuoteAdded else QuoteExistsOrFailed);;
  print VideosHeader;;
  new_videos ← fetch_recent_youtube_videos e;
  '(vs, new_items) ← merge_into data "videos" new_videos new_items;
  print (if new_videos is [] then NoNewVideos
         else AddedVideos (length new_videos));;
  print ArticlesHeader;;
  new_articles ← fetch_recent_articles;
  '(ars, new_items) ← merge_into data "articles" new_articles new_items;
  print (if new_articles is [] then NoNewArticles
         else AddedArticles (length new_articles));;
  mret ({| quotes := qs; articles := ars; videos := vs;
           last_updated := last_updated data; shape := shape data |},
        new_items).

(** Lines 197-205 of [smart_update]: save when something was added.  The
    summary line subscripts [data] three times before it prints. *)
Definition persist (e : env) (data : ContentStore) (new_items : nat)
    : M unit :=
  print ClosingRule;;
  (if bool_decide (0 < new_items) then
     data ← save_data e data;
     print (UpdateComplete new_items);;
     qs ← getitem data "quotes";
     vs ← getitem data "videos";
     ars ← getitem data "articles";
     print (TotalContent (length qs) (length vs) (length ars))
   else print NoNewContent);;
  print Rule.

(** [smart_update()], lines 151-205. *)
Definition smart_update (e : env) : M unit :=
  '(data, new_items) ← gather e;
  persist e data new_items.

(** A run from the shell: the world a process starts in. *)
Definition boot (d : file_state) : world :=
  {| disk := d; access := ReadWrite; dumps := []; stdout := [] |}.

(** ** Notions used to state the properties *)

(** The test [is_duplicate] applies to one existing item. *)
Definition matches (key : string) (item existing : Item) : bool :=
  if contains key item && contains key existing then
    py_eq (item !!! key) (existing !!! key)
  else if contains "url" item && contains "url" existing then
    py_eq (item !!! "url") (existing !!! "url")
  else false.

(** The candidates a merge accepts, in input order. *)
Fixpoint accepted (key : string) (candidates existing : list Item)
    : list Item :=
  match candidates with
  | [] => []
  | c :: cs =>
      if is_duplicate c existing key then accepted key cs existing
      else c :: accepted key cs (c :: existing)
  end.

(** No two items of the list carry the same value under [key]. *)
Definition key_unique (key : string) (l : list Item) : Prop :=
  NoDup (omap (λ d : Item, d !! key) l).

(** The search result carries the five fields the adapter reads. *)
Definition complete (r : search_result) : Prop :=
  is_Some (snippet_title r) ∧ is_Some (snippet_description r) ∧
  is_Some (id_videoId r) ∧ is_Some (snippet_thumbnails_high_url r) ∧
  is_Some (snippet_publishedAt r).

(** What the adapter hands back for a search result [r]: the item [v]
    with the eight fields of lines 108-117. *)
Definition video_item (r : search_result) (v : Item) : Prop :=
  ∃ title description videoId thumbnail publishedAt : str,
    snippet_title r = Some title
    ∧ snippet_description r = Some description
    ∧ id_videoId r = Some videoId
    ∧ snippet_thumbnails_high_url r = Some thumbnail
    ∧ snippet_publishedAt r = Some publishedAt
    ∧ v !! "title" = Some (VStr title)
    ∧ v !! "description" = Some (VStr (take 300 description))
    ∧ v !! "url"
      = Some (VStr (lit "https://www.youtube.com/watch?v=" ++ videoId))
    ∧ v !! "thumbnail" = Some (VStr thumbnail)
    ∧ v !! "date" = Some (VStr (take 10 publishedAt))
    ∧ v !! "source" = Some (VStr (lit "YouTube Official"))
    ∧ v !! "tags" = Some (VList [lit "video"; lit "youtube"])
    ∧ v !! "type" = Some (VStr (lit "video")).

(** The query of the video adapter: the API call and the mapping of its
    results, everything that runs inside the [try] after the first
    [print]. *)
Definition video_query (e : env) : outcome (list Item) :=
  response ← execute e (search_request e);
  map_results (default [] (items response)) [].

(** The world after some more lines were printed. *)
Definition printed (w : world) (out : list log_line) : world :=
  {| disk := disk w; access := access w; dumps := dumps w;
     stdout := stdout w ++ out |}.

(** [data] as [save_data] stamps it. *)
Definition stamped (e : env) (data : ContentStore) : ContentStore :=
  {| quotes := quotes data; articles := articles data;
     videos := videos data; last_updated := Some (now_iso e);
     shape := shape data |}.

(** The data file can be read: it is absent or holds a document. *)
Definition readable (w : world) : Prop :=
  disk w = Missing ∨ ∃ d, disk w = Stored d.

(** The candidates the video adapter yields in environment [e], and the
    lines it prints on the way. *)
Definition video_candidates (e : env) : list Item :=
  if bool_decide (YOUTUBE_API_KEY e = []) then []
  else match video_query e with
       | Return videos => videos
       | Raise _ => []
       end.

Definition video_log (e : env) : list log_line :=
  if bool_decide (YOUTUBE_API_KEY e = []) then [NoApiKey]
  else match video_query e with
       | Return videos => [CheckingVideos; FoundVideos (length videos)]
       | Raise ex => [CheckingVideos; VideoError ex]
       end.

(** The three merges of a run over the loaded document [data]: the
    document and the counter that reach line 197. *)
Definition merged (e : env) (data : ContentStore) : ContentStore * nat :=
  let q := merge_quote (Some (daily_quote_item e)) (quotes data, 0) in
  let v := merge_loop "url" (video_candidates e) (videos data, q.2) in
  let a := merge_loop "url" [] (articles data, v.2) in
  ({| quotes := q.1; articles := a.1; videos := v.1;
      last_updated := last_updated data; shape := shape data |}, a.2).

(** The subscript that stops the merge phase over the loaded value
    [data], if any: [data['quotes']], always evaluated because the quote
    of the day is truthy, or [data['videos']], evaluated when a video
    was fetched. *)
Definition gather_error (e : env) (data : ContentStore) : option exn :=
  match subscript_error data "quotes" with
  | Some ex => Some ex
  | None =>
      if video_candidates e is [] then None
      else subscript_error data "videos"
  end.

(** What a run can change besides its output. *)
Definition files (w : world) : file_state * write_access * list ContentStore :=
  (disk w, access w, dumps w).

(** The value a run works on, when the load returns one. *)
Definition loaded_of (d : file_state) : option ContentStore :=
  match d with
  | Missing => Some fresh_store
  | Stored data => Some data
  | Denied | Garbled => None
  end.

(** What [save_data] leaves of the file, its access and the record of
    writes. *)
Definition after_save (e : env) (data : ContentStore)
    (f : file_state * write_access * list ContentStore)
    : file_state * write_access * list ContentStore :=
  match f.1.2, shape data with
  | ReadWrite, Dict _ =>
      if encodable (stamped e data) then
        (Stored (stamped e data), f.1.2, f.2 ++ [stamped e data])
      else (Garbled, f.1.2, f.2)
  | _, _ => f
  end.

(** What a whole run leaves of them. *)
Definition run_files (e : env)
    (f : file_state * write_access * list ContentStore)
    : file_state * write_access * list ContentStore :=
  match loaded_of f.1.1 with
  | None => f
  | Some d =>
      match gather_error e d with
      | Some _ => f
      | None =>
          if bool_decide (0 < (merged e d).2)
          then after_save e (merged e d).1 f else f
      end
  end.

(** A computation that only prints. *)
Definition quiet {A} (m : M A) : Prop := ∀ w, files (m w).2 = files w.

(** Sample environments: one without credential, one whose API answers
    with a single video, one whose API fails. *)
Definition sample_result : search_result :=
  {| snippet_title := Some (lit "Inner Engineering");
     snippet_description := Some (lit "A talk");
     id_videoId := Some (lit "abc123");
     snippet_thumbnails_high_url := Some (lit "https://i.ytimg.com/vi/abc123/hq.jpg");
     snippet_publishedAt := Some (lit "2024-03-05T10:15:00Z") |}.

Definition env_no_key : env :=
  {| YOUTUBE_API_KEY := [];
     today := lit "2024-03-05";
     now_iso := lit "2024-03-05T12:00:00";
     yesterday_iso := lit "2024-03-04T12:00:00";
     execute := λ _, Raise HttpError |}.

Definition env_one_video : env :=
  {| YOUTUBE_API_KEY := lit "secret";
     today := lit "2024-03-05";
     now_iso := lit "2024-03-05T12:00:00";
     yesterday_iso := lit "2024-03-04T12:00:00";
     execute := λ _, Return {| items := Some [sample_result] |} |}.


(** When [is_duplicate] takes a candidate [c] and an existing item [x]
    for the same item, read off lines 45-50: equal values under the key
    when both carry it; otherwise equal [url] values when both carry
    one. *)
Definition pair_match (key : string) (c x : Item) : Prop :=
  (∃ v, c !! key = Some v ∧ x !! key = Some v)
  ∨ ((c !! key = None ∨ x !! key = None)
     ∧ ∃ u, c !! "url" = Some u ∧ x !! "url" = Some u).

(** The lines the merge phase of a run prints when the document [data]
    was loaded, and the lines of the closing phase. *)
Definition gather_log (e : env) (data : ContentStore) : list log_line :=
  [Rule; Starting; Rule; QuoteHeader; CheckingQuote; QuoteFetched;
   if quote_is_new (Some (daily_quote_item e)) (quotes data)
   then QuoteAdded else QuoteExistsOrFailed;
   VideosHeader]
  ++ video_log e
  ++ [if video_candidates e is [] then NoNewVideos
      else AddedVideos (length (video_candidates e));
      ArticlesHeader; CheckingArticles; ArticlePlaceholder; NoNewArticles].


(** A search result without video identifier, and an API that answers
    with a good result followed by that one. *)
Definition broken_result : search_result :=
  {| snippet_title := Some (lit "Playlist");
     snippet_description := Some (lit "Not a video");
     id_videoId := None;
     snippet_thumbnails_high_url := Some (lit "https://i.ytimg.com/p.jpg");
     snippet_publishedAt := Some (lit "2024-03-05T09:00:00Z") |}.

Definition env_broken_result : env :=
  {| YOUTUBE_API_KEY := lit "secret";
     today := lit "2024-03-05";
     now_iso := lit "2024-03-05T12:00:00";
     yesterday_iso := lit "2024-03-04T12:00:00";
     execute := λ _, Return {| items := Some [sample_result; broken_result] |} |}.

(** The item the adapter makes of [sample_result]. *)
Definition sample_video : Item :=
  list_to_map
    [("title", VStr (lit "Inner Engineering"));
     ("description", VStr (lit "A talk"));
     ("url", VStr (lit "https://www.youtube.com/watch?v=abc123"));
     ("thumbnail", VStr (lit "https://i.ytimg.com/vi/abc123/hq.jpg"));
     ("date", VStr (lit "2024-03-05"));
     ("source", VStr (lit "YouTube Official"));
     ("tags", VList [lit "video"; lit "youtube"]);
     ("type", VStr (lit "video"))].

(** Worlds and values for the failing cases: a data file that cannot
    be written, a dictionary without the list keys, a dictionary with
    the quotes only, a JSON value that is no dictionary, and a video
    whose title holds a lone surrogate. *)
Definition boot_read_only (d : file_state) : world :=
  {| disk := d; access := ReadOnly; dumps := []; stdout := [] |}.

Definition empty_object : ContentStore :=
  {| quotes := []; articles := []; videos := []; last_updated := None;
     shape := Dict ["quotes"; "videos"; "articles"] |}.

Definition quotes_only : ContentStore :=
  {| quotes := []; articles := []; videos := []; last_updated := None;
     shape := Dict ["videos"; "articles"] |}.

Definition not_an_object : ContentStore :=
  {| quotes := []; articles := []; videos := []; last_updated := None;
     shape := NotDict |}.

Definition surrogate_result : search_result :=
  {| snippet_title := Some [55296%N];
     snippet_description := Some (lit "A talk");
     id_videoId := Some (lit "abc123");
     snippet_thumbnails_high_url := Some (lit "https://i.ytimg.com/vi/abc123/hq.jpg");
     snippet_publishedAt := Some (lit "2024-03-05T10:15:00Z") |}.

Definition env_surrogate : env :=
  {| YOUTUBE_API_KEY := lit "secret";
     today := lit "2024-03-05";
     now_iso := lit "2024-03-05T12:00:00";
     yesterday_iso := lit "2024-03-04T12:00:00";
     execute := λ _, Return {| items := Some [surrogate_result] |} |}.

(** * Properties *)

(** ** Duplicate detection *)

Section merge.
Variable key : string.

Lemma contains_true (k : string) (d : Item) :
  contains k d = true ↔ is_Some (d !! k).
Proof.
  unfold contains. destruct (d !! k) as [v|]; split; intros H;
    try done; try by eexists.
Qed.

Lemma contains_false (k : string) (d : Item) :
  contains k d = false ↔ d !! k = None.
Proof. unfold contains. by destruct (d !! k). Qed.

Lemma is_duplicate_exists (c : Item) (l : list Item) :
  is_duplicate c l key = true ↔ ∃ x, x ∈ l ∧ matches key c x = true.
Proof.
  induction l as [|x l IH]; simpl.
  - split; [done | intros (x & Hx & _); by apply elem_of_nil in Hx].
  - split.
    + intros H.
      destruct (matches key c x) eqn:Hm.
      { exists x. split; [left | done]. }
      assert (is_duplicate c l key = true) as Hl.
      { unfold matches in Hm.
        destruct (contains key c && contains key x).
        - by rewrite Hm in H.
        - destruct (contains "url" c && contains "url" x); [by rewrite Hm in H | done]. }
      apply IH in Hl as (y & Hy & Hmy). exists y. split; [by right | done].
    + intros (y & Hy & Hmy). apply elem_of_cons in Hy as [-> | Hy].
      * unfold matches in Hmy.
        destruct (contains key c && contains key x); [by rewrite Hmy |].
        destruct (contains "url" c && contains "url" x); [by rewrite Hmy | done].
      * assert (is_duplicate c l key = true) as -> by (apply IH; eauto).
        by repeat case_match.
Qed.

Lemma is_duplicate_mono (c : Item) (l l' : list Item) :
  l ⊆ l' → is_duplicate c l key = true → is_duplicate c l' key = true.
Proof.
  rewrite !is_duplicate_exists. intros Hsub (x & Hx & Hm). eauto.
Qed.

Lemma matches_self (c : Item) :
  is_Some (c !! key) ∨ is_Some (c !! "url") → matches key c c = true.
Proof.
  intros H. unfold matches, py_eq.
  destruct (contains key c) eqn:Hk; simpl.
  - by apply bool_decide_eq_true.
  - destruct H as [H | H].
    + apply contains_true in H. congruence.
    + apply contains_true in H. rewrite H. simpl. by apply bool_decide_eq_true.
Qed.

Lemma matches_no_fields (c x : Item) :
  c !! key = None → c !! "url" = None → matches key c x = false.
Proof.
  intros Hk Hu. unfold matches.
  apply contains_false in Hk, Hu. by rewrite Hk, Hu.
Qed.

(** ** The loop *)

Lemma merge_loop_cons c cs st :
  merge_loop key (c :: cs) st = merge_loop key cs (merge_step key st c).
Proof. done. Qed.

Lemma merge_loop_app cs cs' st :
  merge_loop key (cs ++ cs') st = merge_loop key cs' (merge_loop key cs st).
Proof. unfold merge_loop. apply fold_left_app. Qed.

Lemma merge_loop_accepted cs : ∀ E n,
  merge_loop key cs (E, n)
  = (reverse (accepted key cs E) ++ E, n + length (accepted key cs E)).
Proof.
  induction cs as [|c cs IH]; intros E n.
  - simpl. by rewrite Nat.add_0_r.
  - rewrite merge_loop_cons. unfold merge_step. simpl.
    destruct (is_duplicate c E key); rewrite IH; [done |].
    rewrite reverse_cons, <-app_assoc. simpl. f_equal. lia.
Qed.

Lemma accepted_sublist cs : ∀ E, sublist (accepted key cs E) cs.
Proof.
  induction cs as [|c cs IH]; intros E; simpl; [constructor |].
  destruct (is_duplicate c E key); [apply sublist_cons | apply sublist_skip];
    apply IH.
Qed.

Lemma merge_loop_drop cs E n :
  drop ((merge_loop key cs (E, n)).2 - n) (merge_loop key cs (E, n)).1 = E.
Proof.
  rewrite merge_loop_accepted. simpl.
  replace (n + length (accepted key cs E) - n)
    with (length (reverse (accepted key cs E)))
    by (rewrite length_reverse; lia).
  by rewrite drop_app_length.
Qed.

Lemma merge_loop_all_duplicates cs : ∀ E n,
  (∀ c, c ∈ cs → is_duplicate c E key = true) →
  merge_loop key cs (E, n) = (E, n).
Proof.
  induction cs as [|c cs IH]; intros E n H; [done |].
  rewrite merge_loop_cons. unfold merge_step. simpl.
  rewrite (H c) by left. apply IH. intros c' Hc'. apply H. by right.
Qed.

Lemma merge_loop_covers cs : ∀ E n c,
  c ∈ cs → is_Some (c !! key) ∨ is_Some (c !! "url") →
  is_duplicate c (merge_loop key cs (E, n)).1 key = true.
Proof.
  induction cs as [|x cs IH]; intros E n c Hc Hself.
  - by apply elem_of_nil in Hc.
  - rewrite merge_loop_cons. apply elem_of_cons in Hc as [-> | Hc].
    + unfold merge_step. simpl.
      destruct (is_duplicate x E key) eqn:Hd.
      * eapply is_duplicate_mono; [| exact Hd].
        rewrite merge_loop_accepted. simpl.
        intros y Hy. apply elem_of_app. by right.
      * rewrite merge_loop_accepted. simpl.
        apply is_duplicate_exists. exists x. split; [| by apply matches_self].
        apply elem_of_app. right. left.
    + destruct (merge_step key (E, n) x) as [E' n']. by apply IH.
Qed.

(** ** Key uniqueness *)

Lemma not_duplicate_fresh_key (c : Item) (l : list Item) (v : value) :
  is_duplicate c l key = false → c !! key = Some v →
  v ∉ omap (λ d : Item, d !! key) l.
Proof.
  intros Hd Hc Hin. apply list_elem_of_omap in Hin as (x & Hx & Hxv).
  assert (is_duplicate c l key = true) as Ht; [| congruence].
  apply is_duplicate_exists. exists x. split; [done |].
  unfold matches, contains, py_eq. rewrite Hc, Hxv. simpl.
  rewrite !lookup_total_alt, Hc, Hxv. simpl. by apply bool_decide_eq_true.
Qed.

Lemma key_unique_cons (c : Item) (l : list Item) :
  key_unique key l → is_duplicate c l key = false → key_unique key (c :: l).
Proof.
  unfold key_unique. intros Hl Hd. simpl.
  destruct (c !! key) as [v|] eqn:Hc; [| done].
  apply NoDup_cons. split; [| done]. by eapply not_duplicate_fresh_key.
Qed.

Lemma merge_step_key_unique st c :
  key_unique key st.1 → key_unique key (merge_step key st c).1.
Proof.
  intros H. unfold merge_step.
  destruct (is_duplicate c st.1 key) eqn:Hd; [done |].
  by apply key_unique_cons.
Qed.

Lemma merge_loop_key_unique cs : ∀ st,
  key_unique key st.1 → key_unique key (merge_loop key cs st).1.
Proof.
  induction cs as [|c cs IH]; intros st H; [done |].
  rewrite merge_loop_cons. by apply IH, merge_step_key_unique.
Qed.

End merge.

Lemma merge_quote_key_unique dq st :
  key_unique "content" st.1 → key_unique "content" (merge_quote dq st).1.
Proof.
  intros H. unfold merge_quote, quote_is_new.
  destruct dq as [q|]; [| done].
  destruct (truthy (Some q)); simpl; [| done].
  destruct (is_duplicate q st.1 "content") eqn:Hd; simpl; [done |].
  by apply key_unique_cons.
Qed.

(** ** Claims about the merge engine *)

(** Claim C1, as the code has it: the [url] comparison is the [elif] of
    the key-presence test.  When a candidate and an existing item carry
    equal [url] values and the dedup key is missing from at least one of
    the two, the candidate is a duplicate and the merge does not add it. *)
Theorem url_match_when_key_missing (key : string) (c e : Item)
    (E : list Item) :
  e ∈ E →
  is_Some (c !! "url") → c !! "url" = e !! "url" →
  c !! key = None ∨ e !! key = None →
  is_duplicate c E key = true
  ∧ (∀ n, merge_step key (E, n) c = (E, n))
  ∧ dedupe_and_merge [c] E key = (E, 0).
Proof.
  intros He Hu Heq Hmiss.
  assert (is_duplicate c E key = true) as Hd.
  { apply is_duplicate_exists. exists e. split; [done |].
    unfold matches.
    assert (contains key c && contains key e = false) as ->.
    { apply andb_false_iff. rewrite !contains_false. done. }
    assert (contains "url" c = true) as -> by by apply contains_true.
    assert (contains "url" e = true) as ->
      by (apply contains_true; by rewrite <-Heq).
    simpl. unfold py_eq. apply bool_decide_eq_true.
    by rewrite !lookup_total_alt, Heq. }
  split; [done |]. split.
  - intros n. unfold merge_step. simpl. by rewrite Hd.
  - unfold dedupe_and_merge, merge_loop, merge_step. simpl. by rewrite Hd.
Qed.

Lemma url_match_when_key_missing_witness :
  is_duplicate (mk [("url", "u1")]) [mk [("title", "X"); ("url", "u1")]]
    "title" = true
  ∧ (∀ n, merge_step "title" ([mk [("title", "X"); ("url", "u1")]], n)
            (mk [("url", "u1")])
          = ([mk [("title", "X"); ("url", "u1")]], n))
  ∧ dedupe_and_merge [mk [("url", "u1")]]
      [mk [("title", "X"); ("url", "u1")]] "title"
    = ([mk [("title", "X"); ("url", "u1")]], 0).
Proof.
  apply (url_match_when_key_missing "title" (mk [("url", "u1")])
           (mk [("title", "X"); ("url", "u1")])).
  - left.
  - by eexists.
  - reflexivity.
  - left. reflexivity.
Defined.

(** Claim C1 fails as stated: with the key [title] present on both items
    with different values, the equal [url]s are never compared and the
    candidate is added. *)
Lemma url_match_not_regardless_of_key :
  let c := mk [("title", "Y"); ("url", "u1")] in
  let e := mk [("title", "X"); ("url", "u1")] in
  is_Some (c !! "url") ∧ c !! "url" = e !! "url"
  ∧ is_duplicate c [e] "title" = false
  ∧ dedupe_and_merge [c] [e] "title" = ([c; e], 1).
Proof. vm_compute. repeat split. by eexists. Qed.

(** Claim C2, amended: when every candidate carries the dedup key or a
    [url], merging the same candidates a second time adds nothing and
    leaves the list as the first merge produced it. *)
Theorem merge_idempotent (key : string) (C E : list Item) :
  (∀ c, c ∈ C → is_Some (c !! key) ∨ is_Some (c !! "url")) →
  dedupe_and_merge C (dedupe_and_merge C E key).1 key
  = ((dedupe_and_merge C E key).1, 0).
Proof.
  intros H. unfold dedupe_and_merge at 1.
  apply merge_loop_all_duplicates.
  intros c Hc. apply merge_loop_covers; auto.
Qed.

Lemma merge_idempotent_witness :
  dedupe_and_merge [mk [("url", "u1")]; mk [("url", "u2")]]
    (dedupe_and_merge [mk [("url", "u1")]; mk [("url", "u2")]]
       [mk [("url", "u2")]] "url").1 "url"
  = ((dedupe_and_merge [mk [("url", "u1")]; mk [("url", "u2")]]
        [mk [("url", "u2")]] "url").1, 0).
Proof.
  apply merge_idempotent.
  intros c Hc. left.
  apply elem_of_cons in Hc as [-> | Hc]; [by eexists |].
  apply elem_of_cons in Hc as [-> | Hc]; [by eexists |].
  by apply elem_of_nil in Hc.
Defined.

(** Claim C2 fails as stated: a candidate with neither the key nor a
    [url] is added again by the second merge. *)
Lemma merge_not_idempotent_without_fields :
  (dedupe_and_merge [∅] (dedupe_and_merge [∅] [] "url").1 "url").2 = 1.
Proof. reflexivity. Qed.

(** Claim C4: a candidate that carries neither the dedup key nor a [url]
    is a duplicate of nothing, whatever the existing list, and the merge
    adds it, wherever it stands in the candidate list; so does the quote
    branch, whose truthiness test passes every dictionary but the empty
    one. *)
Theorem no_key_no_url_always_added (key : string) (c : Item) :
  c !! key = None → c !! "url" = None →
  ∀ E : list Item,
    is_duplicate c E key = false
    ∧ (∀ n, merge_step key (E, n) c = (c :: E, S n))
    ∧ dedupe_and_merge [c] E key = (c :: E, 1)
    ∧ (∀ before after : list Item,
         dedupe_and_merge (before ++ c :: after) E key
         = merge_loop key after
             (c :: (dedupe_and_merge before E key).1,
              S (dedupe_and_merge before E key).2))
    ∧ (key = "content" → c ≠ ∅ →
       ∀ n, merge_quote (Some c) (E, n) = (c :: E, S n)).
Proof.
  intros Hk Hu.
  assert (∀ E, is_duplicate c E key = false) as Hd.
  { intros E. destruct (is_duplicate c E key) eqn:Hd; [| done].
    apply is_duplicate_exists in Hd as (x & _ & Hm).
    by rewrite matches_no_fields in Hm. }
  intros E. split; [done |]. split; [| split; [| split]].
  - intros n. unfold merge_step. simpl. by rewrite Hd.
  - unfold dedupe_and_merge, merge_loop, merge_step. simpl. by rewrite Hd.
  - intros before after. unfold dedupe_and_merge.
    rewrite merge_loop_app, merge_loop_cons.
    destruct (merge_loop key before (E, 0)) as [U n].
    unfold merge_step. simpl. by rewrite Hd.
  - intros -> Hne n. unfold merge_quote, quote_is_new, truthy. simpl.
    by rewrite Hd, bool_decide_eq_false_2.
Qed.

Lemma no_key_no_url_always_added_witness :
  is_duplicate (mk [("title", "T")]) [mk [("content", "A"); ("url", "u1")]]
    "content" = false
  ∧ dedupe_and_merge [mk [("title", "T")]]
      [mk [("content", "A"); ("url", "u1")]] "content"
    = ([mk [("title", "T")]; mk [("content", "A"); ("url", "u1")]], 1).
Proof.
  destruct (no_key_no_url_always_added "content" (mk [("title", "T")])
              eq_refl eq_refl [mk [("content", "A"); ("url", "u1")]])
    as (H1 & _ & H3 & _ & _).
  split; [exact H1 | exact H3].
Defined.

(** Claim C5: the accepted candidates are prepended one by one, so the
    updated list is the accepted candidates in reverse input order
    followed by the existing list; two candidates [v1], [v2] that are
    both accepted into an empty list end up as [v2; v1]. *)
Theorem accepted_candidates_reversed (key : string) (C E : list Item) :
  dedupe_and_merge C E key
  = (reverse (accepted key C E) ++ E, length (accepted key C E))
  ∧ sublist (accepted key C E) C
  ∧ (∀ v1 v2 : Item,
       is_duplicate v2 [v1] key = false →
       dedupe_and_merge [v1; v2] [] key = ([v2; v1], 2)).
Proof.
  split; [| split].
  - unfold dedupe_and_merge. by rewrite merge_loop_accepted.
  - apply accepted_sublist.
  - intros v1 v2 H.
    unfold dedupe_and_merge. rewrite merge_loop_cons.
    change (merge_step key ([], 0) v1) with ([v1], 1).
    rewrite merge_loop_cons. unfold merge_step.
    change (([v1], 1).1) with [v1]. by rewrite H.
Qed.

Lemma accepted_candidates_reversed_witness :
  dedupe_and_merge [mk [("url", "u1")]; mk [("url", "u2")]] [] "url"
  = ([mk [("url", "u2")]; mk [("url", "u1")]], 2).
Proof.
  apply (accepted_candidates_reversed "url" [] []).
  reflexivity.
Defined.

(** Claim C10: the merge leaves the existing items alone.  Dropping the
    added items from the front of the updated list gives back the
    existing list, item for item and in order, and the updated list is
    longer than the existing one by exactly the count added. *)
Theorem merge_frame (key : string) (C E : list Item) :
  drop (dedupe_and_merge C E key).2 (dedupe_and_merge C E key).1 = E
  ∧ E `suffix_of` (dedupe_and_merge C E key).1
  ∧ length (dedupe_and_merge C E key).1
    = length E + (dedupe_and_merge C E key).2.
Proof.
  unfold dedupe_and_merge.
  pose proof (merge_loop_drop key C E 0) as Hdrop.
  rewrite Nat.sub_0_r in Hdrop.
  split; [done |]. split.
  - rewrite <-Hdrop at 1. apply suffix_drop.
  - rewrite merge_loop_accepted. simpl.
    rewrite length_app, length_reverse. lia.
Qed.

(** ** The monad *)

Lemma bind_return {A B} (m : M A) (f : A → M B) w a w1 :
  m w = (Return a, w1) → (m ≫= f) w = f a w1.
Proof. intros H. unfold mbind, M_bind. by rewrite H. Qed.

Lemma bind_raise {A B} (m : M A) (f : A → M B) w ex w1 :
  m w = (Raise ex, w1) → (m ≫= f) w = (Raise ex, w1).
Proof. intros H. unfold mbind, M_bind. by rewrite H. Qed.

Lemma bind_inv {A B} (m : M A) (f : A → M B) w b w2 :
  (m ≫= f) w = (Return b, w2) →
  ∃ a w1, m w = (Return a, w1) ∧ f a w1 = (Return b, w2).
Proof.
  unfold mbind, M_bind. destruct (m w) as [[a|ex] w1]; [eauto | done].
Qed.

Lemma print_run l w : print l w = (Return (), printed w [l]).
Proof. done. Qed.

Lemma printed_printed w out out' :
  printed (printed w out) out' = printed w (out ++ out').
Proof. unfold printed. simpl. by rewrite app_assoc. Qed.

Lemma printed_nil w : printed w [] = w.
Proof. destruct w. unfold printed. simpl. by rewrite app_nil_r. Qed.

(** ** The store *)

Lemma load_existing_data_run w :
  load_existing_data w
  = match disk w with
    | Missing => (Return fresh_store, w)
    | Denied => (Raise PermissionError, w)
    | Garbled => (Raise JSONDecodeError, w)
    | Stored d => (Return d, w)
    end.
Proof.
  unfold load_existing_data, try_except, read_json.
  by destruct (disk w).
Qed.

(** Claim C3, amended: when the data file is absent, [load] returns a
    fresh store, with three empty lists and no timestamp, raises nothing
    and leaves the world as it was. *)
Theorem load_missing_file_fresh (w : world) :
  disk w = Missing →
  load_existing_data w = (Return fresh_store, w)
  ∧ quotes fresh_store = [] ∧ articles fresh_store = []
  ∧ videos fresh_store = [] ∧ last_updated fresh_store = None.
Proof.
  intros H. rewrite load_existing_data_run, H. done.
Qed.

Lemma load_missing_file_fresh_witness :
  load_existing_data (boot Missing) = (Return fresh_store, boot Missing).
Proof.
  apply (load_missing_file_fresh (boot Missing)). reflexivity.
Defined.

(** Claim C3 fails as stated: a data file that is present but is not
    JSON, or cannot be opened, makes [load] raise, and the run ends with
    that exception before anything is fetched. *)
Lemma load_unreadable_file_raises :
  load_existing_data (boot Garbled) = (Raise JSONDecodeError, boot Garbled)
  ∧ load_existing_data (boot Denied) = (Raise PermissionError, boot Denied)
  ∧ smart_update env_no_key (boot Garbled)
    = (Raise JSONDecodeError, printed (boot Garbled) [Rule; Starting; Rule]).
Proof. repeat split. Qed.

(** ** The adapters *)

Lemma fetch_daily_quote_run e w :
  fetch_daily_quote e w
  = (Return (Some (daily_quote_item e)),
     printed w [CheckingQuote; QuoteFetched]).
Proof.
  unfold fetch_daily_quote, try_except.
  rewrite (bind_return _ _ _ _ _ (print_run _ _)).
  rewrite (bind_return _ _ _ _ _ (print_run _ _)).
  by rewrite printed_printed.
Qed.

Lemma fetch_recent_articles_run w :
  fetch_recent_articles w
  = (Return [], printed w [CheckingArticles; ArticlePlaceholder]).
Proof.
  unfold fetch_recent_articles, try_except.
  rewrite (bind_return _ _ _ _ _ (print_run _ _)).
  rewrite (bind_return _ _ _ _ _ (print_run _ _)).
  by rewrite printed_printed.
Qed.

Lemma fetch_recent_youtube_videos_run e w :
  fetch_recent_youtube_videos e w
  = (Return (video_candidates e), printed w (video_log e)).
Proof.
  unfold fetch_recent_youtube_videos, video_candidates, video_log.
  case_bool_decide as Hkey.
  - by rewrite (bind_return _ _ _ _ _ (print_run _ _)).
  - unfold try_except, video_query, mbind, M_bind, outcome_bind, mret, M_ret,
      print, lift, printed.
    simpl.
    destruct (execute e (search_request e)) as [resp|ex]; simpl;
      [destruct (map_results (default [] (items resp)) []) as [vs|ex]; simpl |];
      by rewrite <-?app_assoc.
Qed.

(** ** The run *)

Ltac run_step :=
  first
    [ rewrite (bind_return _ _ _ _ _ (print_run _ _))
    | rewrite (bind_return _ _ _ _ _ (fetch_daily_quote_run _ _))
    | rewrite (bind_return _ _ _ _ _ (fetch_recent_youtube_videos_run _ _))
    | rewrite (bind_return _ _ _ _ _ (fetch_recent_articles_run _)) ];
  rewrite ?printed_printed.

Lemma files_printed w out : files (printed w out) = files w.
Proof. done. Qed.

Lemma daily_quote_truthy (e : env) : truthy (Some (daily_quote_item e)) = true.
Proof.
  unfold truthy. apply negb_true_iff, bool_decide_eq_false. intros H.
  assert (daily_quote_item e !! "content" = None) as Hc
    by (rewrite H; apply lookup_empty).
  done.
Qed.

Lemma subscript_error_dict data k :
  subscript_error data k = None → ∃ lacks, shape data = Dict lacks.
Proof.
  unfold subscript_error. destruct (shape data); [eauto | done].
Qed.

Lemma merge_daily_quote_run data dq n w :
  merge_daily_quote data dq n w
  = match (if truthy dq then subscript_error data "quotes" else None) with
    | Some ex => (Raise ex, w)
    | None => (Return (merge_quote dq (quotes data, n)), w)
    end.
Proof.
  unfold merge_daily_quote, getitem, mbind, M_bind, mret, M_ret.
  destruct (truthy dq) eqn:Ht.
  - by destruct (subscript_error data "quotes").
  - unfold merge_quote, quote_is_new. destruct dq as [q|]; [| done].
    by rewrite Ht.
Qed.

Lemma merge_into_run data k cands n w :
  merge_into data k cands n w
  = match (if cands is [] then None else subscript_error data k) with
    | Some ex => (Raise ex, w)
    | None => (Return (merge_loop "url" cands (field k data, n)), w)
    end.
Proof.
  unfold merge_into, getitem, mbind, M_bind, mret, M_ret.
  destruct cands as [|c cs]; [done |].
  by destruct (subscript_error data k).
Qed.

Lemma merge_into_nil data k n w :
  merge_into data k [] n w = (Return (field k data, n), w).
Proof. done. Qed.

(** The merge phase over a loaded value. *)
Lemma gather_loaded e w data :
  disk w = Stored data ∨ (disk w = Missing ∧ data = fresh_store) →
  match gather_error e data with
  | Some ex => ∃ out, gather e w = (Raise ex, printed w out)
  | None => gather e w = (Return (merged e data), printed w (gather_log e data))
  end.
Proof.
  intros Hw. unfold gather. do 3 run_step.
  pose proof (load_existing_data_run (printed w [Rule; Starting; Rule])) as Hl.
  simpl in Hl.
  assert (load_existing_data (printed w [Rule; Starting; Rule])
          = (Return data, printed w [Rule; Starting; Rule])) as Hl'.
  { rewrite Hl. by destruct Hw as [-> | [-> ->]]. }
  rewrite (bind_return _ _ _ _ _ Hl'). clear Hl Hl'.
  do 2 run_step. unfold gather_error.
  match goal with
  | |- context [(merge_daily_quote data ?dq ?n ≫= ?f) ?w0] =>
      pose proof (merge_daily_quote_run data dq n w0) as Hq
  end.
  rewrite daily_quote_truthy in Hq.
  destruct (subscript_error data "quotes") as [ex|] eqn:Hsq.
  { rewrite (bind_raise _ _ _ _ _ Hq). by eexists. }
  rewrite (bind_return _ _ _ _ _ Hq). clear Hq.
  unfold merged, gather_log.
  destruct (merge_quote _ _) as [qs n1]. do 3 run_step.
  match goal with
  | |- context [(merge_into data "videos" ?c ?n ≫= ?f) ?w1] =>
      pose proof (merge_into_run data "videos" c n w1) as Hv
  end.
  destruct (video_candidates e) as [|c cs] eqn:Hcands.
  - rewrite (bind_return _ _ _ _ _ Hv). clear Hv.
    cbn [merge_loop fold_left fst snd]. do 3 run_step.
    rewrite (bind_return _ _ _ _ _ (merge_into_nil _ _ _ _)).
    run_step. unfold mret, M_ret. cbn [merge_loop fold_left fst snd].
    f_equal. f_equal.
    repeat (progress (rewrite <-?app_assoc; simpl)). reflexivity.
  - destruct (subscript_error data "videos") as [ex|] eqn:Hsv.
    { rewrite (bind_raise _ _ _ _ _ Hv). by eexists. }
    rewrite (bind_return _ _ _ _ _ Hv). clear Hv.
    change (field "videos" data) with (videos data). cbn [fst snd].
    destruct (merge_loop "url" (c :: cs) (videos data, n1)) as [vs n2].
    do 3 run_step.
    rewrite (bind_return _ _ _ _ _ (merge_into_nil _ _ _ _)).
    run_step. unfold mret, M_ret. cbn [merge_loop fold_left fst snd].
    f_equal. f_equal.
    repeat (progress (rewrite <-?app_assoc; simpl)). reflexivity.
Qed.

Lemma gather_unloadable e w :
  (disk w = Denied →
   gather e w = (Raise PermissionError, printed w [Rule; Starting; Rule]))
  ∧ (disk w = Garbled →
     gather e w = (Raise JSONDecodeError, printed w [Rule; Starting; Rule])).
Proof.
  unfold gather. do 3 run_step.
  pose proof (load_existing_data_run (printed w [Rule; Starting; Rule])) as Hl.
  simpl in Hl.
  split; intros Hd; rewrite Hd in Hl; by rewrite (bind_raise _ _ _ _ _ Hl).
Qed.

(** Whatever happens, the merge phase only prints. *)
Lemma gather_world e w : ∃ out, (gather e w).2 = printed w out.
Proof.
  destruct (disk w) as [| | |d] eqn:Hd.
  - pose proof (gather_loaded e w fresh_store (or_intror (conj Hd eq_refl)))
      as Hg.
    destruct (gather_error e fresh_store); [destruct Hg as [out ->] | rewrite Hg];
      by eexists.
  - destruct (gather_unloadable e w) as [Hg _]. rewrite (Hg Hd). by eexists.
  - destruct (gather_unloadable e w) as [_ Hg]. rewrite (Hg Hd). by eexists.
  - pose proof (gather_loaded e w d (or_introl Hd)) as Hg.
    destruct (gather_error e d); [destruct Hg as [out ->] | rewrite Hg];
      by eexists.
Qed.

Lemma gather_returns_full e w data n w1 :
  gather e w = (Return (data, n), w1) →
  ∃ d0, (disk w = Stored d0 ∨ (disk w = Missing ∧ d0 = fresh_store))
        ∧ gather_error e d0 = None
        ∧ (data, n) = merged e d0
        ∧ w1 = printed w (gather_log e d0).
Proof.
  intros Hr.
  destruct (disk w) as [| | |d] eqn:Hd.
  - pose proof (gather_loaded e w fresh_store (or_intror (conj Hd eq_refl)))
      as Hg.
    destruct (gather_error e fresh_store) eqn:He.
    + destruct Hg as [out Hg]. congruence.
    + exists fresh_store. rewrite Hg in Hr.
      split; [by right |]. split; [done |]. split; congruence.
  - destruct (gather_unloadable e w) as [Hg _]. by rewrite (Hg Hd) in Hr.
  - destruct (gather_unloadable e w) as [_ Hg]. by rewrite (Hg Hd) in Hr.
  - pose proof (gather_loaded e w d (or_introl Hd)) as Hg.
    destruct (gather_error e d) eqn:He.
    + destruct Hg as [out Hg]. congruence.
    + exists d. rewrite Hg in Hr.
      split; [by left |]. split; [done |]. split; congruence.
Qed.

Lemma gather_returns e w data n w1 :
  gather e w = (Return (data, n), w1) →
  ∃ d0, (disk w = Stored d0 ∨ (disk w = Missing ∧ d0 = fresh_store))
        ∧ (data, n) = merged e d0.
Proof.
  intros Hr. apply gather_returns_full in Hr as (d0 & Hw & _ & Hm & _). eauto.
Qed.

Lemma gather_error_dict e d :
  gather_error e d = None → ∃ lacks, shape d = Dict lacks.
Proof.
  unfold gather_error.
  destruct (subscript_error d "quotes") eqn:Hq; [done |].
  intros _. by eapply subscript_error_dict.
Qed.

Lemma merged_shape e d : shape (merged e d).1 = shape d.
Proof. done. Qed.

(** ** Saving *)

Lemma save_data_run e data w :
  save_data e data w
  = match access w, shape data with
    | NoDirectory, _ => (Raise PermissionError, w)
    | _, NotDict => (Raise TypeError, w)
    | ReadOnly, Dict _ => (Raise PermissionError, w)
    | ReadWrite, Dict _ =>
        if encodable (stamped e data) then
          (Return (stamped e data),
           {| disk := Stored (stamped e data); access := access w;
              dumps := dumps w ++ [stamped e data]; stdout := stdout w |})
        else
          (Raise UnicodeEncodeError,
           {| disk := Garbled; access := access w; dumps := dumps w;
              stdout := stdout w |})
    end.
Proof.
  unfold save_data, makedirs, set_last_updated, write_json, stamped,
    mbind, M_bind, mret, M_ret.
  destruct (access w) eqn:Ha, (shape data) eqn:Hs; simpl; rewrite ?Ha; try done.
  by destruct (encodable _).
Qed.

Lemma save_data_files_printed e data w out :
  files (save_data e data (printed w out)).2 = files (save_data e data w).2.
Proof.
  rewrite !save_data_run. cbn [access printed dumps].
  destruct (access w), (shape data); try done.
  by destruct (encodable _).
Qed.

Lemma save_data_outcome_printed e data w out :
  (save_data e data (printed w out)).1 = (save_data e data w).1.
Proof.
  rewrite !save_data_run. cbn [access printed dumps].
  destruct (access w), (shape data); try done.
  by destruct (encodable _).
Qed.

(** What a save leaves: at most one more document, stamped. *)
Lemma save_data_dumps e data w :
  dumps (save_data e data w).2 = dumps w
  ∨ dumps (save_data e data w).2 = dumps w ++ [stamped e data].
Proof.
  rewrite save_data_run.
  destruct (access w), (shape data); auto.
  destruct (encodable _); auto.
Qed.

Lemma quiet_print l : quiet (print l).
Proof. by intros w. Qed.

Lemma quiet_getitem data k : quiet (getitem data k).
Proof. intros w. unfold getitem. by destruct (subscript_error data k). Qed.

Lemma quiet_bind {A B} (m : M A) (f : A → M B) :
  quiet m → (∀ a, quiet (f a)) → quiet (m ≫= f).
Proof.
  intros Hm Hf w. unfold mbind, M_bind.
  specialize (Hm w). destruct (m w) as [[a|ex] w1]; [| done].
  by rewrite Hf.
Qed.

Lemma files_bind_quiet {A B} (m : M A) (f : A → M B) w :
  (∀ a, quiet (f a)) → files ((m ≫= f) w).2 = files (m w).2.
Proof.
  intros Hf. unfold mbind, M_bind.
  destruct (m w) as [[a|ex] w1]; [apply Hf | done].
Qed.

Lemma persist_files e data n w :
  files (persist e data n w).2
  = if bool_decide (0 < n) then files (save_data e data w).2 else files w.
Proof.
  unfold persist. run_step.
  rewrite files_bind_quiet by (intros; apply quiet_print).
  case_bool_decide.
  - rewrite files_bind_quiet; [apply save_data_files_printed |].
    intros d. repeat (apply quiet_bind; intros);
      first [apply quiet_print | apply quiet_getitem].
  - done.
Qed.

Lemma smart_update_files e w :
  files (smart_update e w).2
  = match (gather e w).1 with
    | Return (data, n) =>
        if bool_decide (0 < n) then files (save_data e data w).2 else files w
    | Raise _ => files w
    end.
Proof.
  unfold smart_update, mbind, M_bind.
  destruct (gather_world e w) as [out Hw].
  destruct (gather e w) as [[[data n]|ex] w1]; simpl in *; subst w1.
  - rewrite persist_files. case_bool_decide; [| done].
    apply save_data_files_printed.
  - done.
Qed.

Lemma smart_update_raise e w ex w1 :
  gather e w = (Raise ex, w1) → smart_update e w = (Raise ex, w1).
Proof. intros H. unfold smart_update. by rewrite (bind_raise _ _ _ _ _ H). Qed.

Lemma persist_save_raises e data n w ex :
  0 < n → (save_data e data w).1 = Raise ex → (persist e data n w).1 = Raise ex.
Proof.
  intros Hn Hs. unfold persist. run_step.
  rewrite bool_decide_eq_true_2 by done.
  rewrite <-(save_data_outcome_printed e data w [ClosingRule]) in Hs.
  unfold mbind, M_bind.
  destruct (save_data e data (printed w [ClosingRule])) as [[d|ex'] w1];
    simpl in Hs; [done | by injection Hs as ->].
Qed.

(** ** Claims about the store and the run *)

(** Claim C6: a run writes the data file at most once and only when its
    count of added items is positive.  With a positive count it does to
    the file what one call of [save_data] on the merged dictionary does,
    with a count of zero it leaves the file alone; a save that goes
    through writes the dictionary with the timestamp [save_data] set
    before writing, never null; a save that fails persists nothing and
    ends the run with its exception. *)
Theorem persists_once_iff_added (e : env) (w : world) :
  (∃ written,
     dumps (smart_update e w).2 = dumps w ++ written
     ∧ (length written ≤ 1)%nat
     ∧ ∀ d, d ∈ written → last_updated d = Some (now_iso e))
  ∧ (∀ data new_items w1,
       gather e w = (Return (data, new_items), w1) →
       (new_items = 0 →
        dumps (smart_update e w).2 = dumps w
        ∧ disk (smart_update e w).2 = disk w)
       ∧ (0 < new_items →
          dumps (smart_update e w).2 = dumps (save_data e data w).2
          ∧ disk (smart_update e w).2 = disk (save_data e data w).2)
       ∧ (0 < new_items → access w = ReadWrite →
          encodable (stamped e data) = true →
          dumps (smart_update e w).2 = dumps w ++ [stamped e data]
          ∧ disk (smart_update e w).2 = Stored (stamped e data)
          ∧ last_updated (stamped e data) ≠ None)
       ∧ (0 < new_items →
          ¬ (access w = ReadWrite ∧ encodable (stamped e data) = true) →
          dumps (smart_update e w).2 = dumps w
          ∧ ∃ ex, (smart_update e w).1 = Raise ex))
  ∧ (∀ ex w1,
       gather e w = (Raise ex, w1) →
       dumps (smart_update e w).2 = dumps w
       ∧ disk (smart_update e w).2 = disk w).
Proof.
  pose proof (smart_update_files e w) as Hf.
  split; [| split].
  - destruct (gather e w) as [[[data n]|ex] w1]; simpl in Hf.
    + case_bool_decide.
      * injection Hf as _ _ Hd. rewrite Hd.
        destruct (save_data_dumps e data w) as [-> | ->].
        -- exists []. rewrite app_nil_r. split; [done |].
           split; [simpl; lia |]. intros d Hin. by apply elem_of_nil in Hin.
        -- exists [stamped e data]. split; [done |]. split; [simpl; lia |].
           intros d Hin. by apply list_elem_of_singleton in Hin as ->.
      * injection Hf as _ _ Hd. rewrite Hd.
        exists []. rewrite app_nil_r. split; [done |].
        split; [simpl; lia |]. intros d Hin. by apply elem_of_nil in Hin.
    + injection Hf as _ _ Hd. rewrite Hd.
      exists []. rewrite app_nil_r. split; [done |].
      split; [simpl; lia |]. intros d Hin. by apply elem_of_nil in Hin.
  - intros data n w1 Hr.
    pose proof Hr as Hfull.
    apply gather_returns_full in Hfull as (d0 & _ & Herr & Hm & ->).
    apply gather_error_dict in Herr as [lacks Hshape].
    assert (shape data = Dict lacks) as Hsd.
    { apply (f_equal fst) in Hm. cbn [fst] in Hm. rewrite Hm.
      by rewrite merged_shape. }
    rewrite Hr in Hf. simpl in Hf.
    split; [| split; [| split]].
    + intros ->. rewrite bool_decide_eq_false_2 in Hf by lia.
      by injection Hf as -> _ ->.
    + intros Hn. rewrite bool_decide_eq_true_2 in Hf by done.
      by injection Hf as -> _ ->.
    + intros Hn Ha He. rewrite bool_decide_eq_true_2 in Hf by done.
      rewrite save_data_run, Ha, Hsd, He in Hf. simpl in Hf.
      by injection Hf as -> _ ->.
    + intros Hn Hfail. rewrite bool_decide_eq_true_2 in Hf by done.
      assert (∃ ex, save_data e data w = (Raise ex, w)
                    ∨ save_data e data w
                      = (Raise ex, {| disk := Garbled; access := access w;
                                      dumps := dumps w; stdout := stdout w |}))
        as (ex & Hs).
      { rewrite save_data_run, Hsd.
        destruct (access w) eqn:Ha; eauto.
        destruct (encodable (stamped e data)) eqn:He; [| eauto].
        destruct Hfail. done. }
      split.
      * injection Hf as _ _ ->. by destruct Hs as [-> | ->].
      * exists ex. unfold smart_update. rewrite (bind_return _ _ _ _ _ Hr).
        apply persist_save_raises; [done |].
        rewrite save_data_outcome_printed. by destruct Hs as [-> | ->].
  - intros ex w1 Hr. rewrite Hr in Hf. simpl in Hf. by injection Hf as -> _ ->.
Qed.

Lemma persists_once_iff_added_witness :
  dumps (smart_update env_one_video (boot Missing)).2
  = [stamped env_one_video (merged env_one_video fresh_store).1].
Proof.
  destruct (persists_once_iff_added env_one_video (boot Missing))
    as (_ & H & _).
  destruct (H (merged env_one_video fresh_store).1 2
              (gather env_one_video (boot Missing)).2) as (_ & _ & Hpos & _).
  - vm_compute. reflexivity.
  - destruct Hpos as (Hd & _); [lia | reflexivity | vm_compute; reflexivity |].
    exact Hd.
Defined.

(** Claim C7: uniqueness of the dedup key is preserved by the merge.  If
    no two items of the existing list carry the same value under the
    key, no two items of the updated list do; this holds for the loop
    with any key, for the quote branch with ['content'], and hence for
    the three lists a run leaves in [data]. *)
Theorem key_uniqueness_preserved :
  (∀ (key : string) (C E : list Item),
     key_unique key E → key_unique key (dedupe_and_merge C E key).1)
  ∧ (∀ (daily_quote : option Item) (E : list Item) (n : nat),
       key_unique "content" E →
       key_unique "content" (merge_quote daily_quote (E, n)).1)
  ∧ (∀ (e : env) (w : world) (data : ContentStore) (n : nat) (w1 : world),
       gather e w = (Return (data, n), w1) →
       (∀ d, disk w = Stored d →
          key_unique "content" (quotes d) ∧ key_unique "url" (videos d)
          ∧ key_unique "url" (articles d)) →
       key_unique "content" (quotes data) ∧ key_unique "url" (videos data)
       ∧ key_unique "url" (articles data)).
Proof.
  split; [| split].
  - intros key C E H. unfold dedupe_and_merge.
    by apply merge_loop_key_unique.
  - intros dq E n H. by apply merge_quote_key_unique.
  - intros e w data n w1 Hr Hpre.
    apply gather_returns in Hr as (d0 & Hw & Hm).
    assert (key_unique "content" (quotes d0)
            ∧ key_unique "url" (videos d0)
            ∧ key_unique "url" (articles d0)) as (Hq & Hv & Ha).
    { destruct Hw as [Hd | [_ ->]]; [by apply Hpre |].
      unfold key_unique. simpl. repeat split; constructor. }
    apply (f_equal fst) in Hm. cbn [fst] in Hm. subst data.
    unfold merged. cbn [fst quotes videos articles].
    split; [| split].
    + by apply merge_quote_key_unique.
    + by apply merge_loop_key_unique.
    + by apply merge_loop_key_unique.
Qed.

Lemma key_uniqueness_preserved_witness :
  key_unique "url"
    (dedupe_and_merge [mk [("url", "u1")]; mk [("url", "u2")]; mk [("url", "u1")]]
       [mk [("url", "u2")]] "url").1.
Proof.
  apply key_uniqueness_preserved.
  unfold key_unique. vm_compute. apply NoDup_singleton.
Defined.

(** ** Claims about the video adapter *)





Lemma video_of_complete (r : search_result) :
  complete r → ∃ v, video_of r = Return v ∧ video_item r v.
Proof.
  intros ([t Ht] & [d Hd] & [i Hi] & [th Hth] & [p Hp]).
  unfold video_of. rewrite Ht, Hd, Hi, Hth, Hp. simpl.
  eexists. split; [reflexivity |].
  exists t, d, i, th, p. repeat split; try done.
Qed.

Lemma map_results_complete (rs : list search_result) :
  Forall complete rs →
  ∀ acc, ∃ vs, map_results rs acc = Return (acc ++ vs)
               ∧ Forall2 video_item rs vs.
Proof.
  induction 1 as [|r rs Hr _ IH]; intros acc; simpl.
  - exists []. by rewrite app_nil_r.
  - destruct (video_of_complete r Hr) as (v & -> & Hv).
    destruct (IH (acc ++ [v])) as (vs & -> & Hvs).
    exists (v :: vs). rewrite <-app_assoc. split; [done |].
    by constructor.
Qed.

(** Claim C9: every search result the adapter processes becomes an item
    with the result's title, its description cut to its first 300
    characters, the date made of the first 10 characters of the
    publication timestamp, the watch URL built from the video
    identifier, the high-resolution thumbnail, the fixed source label,
    the tags video and youtube, and the type video; the items come out
    in the order of the results. *)
Theorem video_adapter_maps_results (e : env) (w : world) (resp : response) :
  YOUTUBE_API_KEY e ≠ [] →
  execute e (search_request e) = Return resp →
  Forall complete (default [] (items resp)) →
  ∃ videos,
    fetch_recent_youtube_videos e w
    = (Return videos,
       printed w [CheckingVideos; FoundVideos (length videos)])
    ∧ Forall2 video_item (default [] (items resp)) videos
    ∧ ∀ v, v ∈ videos →
        ∃ description date : str,
          v !! "description" = Some (VStr description)
          ∧ (length description ≤ 300)%nat
          ∧ v !! "date" = Some (VStr date)
          ∧ (length date ≤ 10)%nat.
Proof.
  intros Hk Hx Hc.
  destruct (map_results_complete _ Hc []) as (vs & Hm & Hvs).
  exists vs. rewrite fetch_recent_youtube_videos_run.
  unfold video_candidates, video_log, video_query.
  rewrite !bool_decide_eq_false_2 by done.
  rewrite Hx. simpl. rewrite Hm. simpl.
  split; [done |]. split; [done |].
  intros v Hv.
  apply list_elem_of_lookup in Hv as [i Hi].
  destruct (Forall2_lookup_r _ _ _ _ _ Hvs Hi) as (r & _ & Hrv).
  destruct Hrv as (t & d & vid & th & p & _ & _ & _ & _ & _ & _ & Hd & _
                   & _ & Hp & _).
  exists (take 300 d), (take 10 p).
  rewrite !length_take. repeat split; [done | lia | done | lia].
Qed.

Lemma video_adapter_maps_results_witness :
  ∃ videos,
    fetch_recent_youtube_videos env_one_video (boot Missing)
    = (Return videos,
       printed (boot Missing) [CheckingVideos; FoundVideos (length videos)])
    ∧ Forall2 video_item [sample_result] videos
    ∧ ∀ v, v ∈ videos →
        ∃ description date : str,
          v !! "description" = Some (VStr description)
          ∧ (length description ≤ 300)%nat
          ∧ v !! "date" = Some (VStr date)
          ∧ (length date ≤ 10)%nat.
Proof.
  apply (video_adapter_maps_results env_one_video (boot Missing)
           {| items := Some [sample_result] |}).
  - discriminate.
  - reflexivity.
  - simpl. constructor; [| constructor].
    unfold complete, sample_result. simpl. repeat split; by eexists.
Defined.

(** The adapter on the sample result, evaluated. *)
Example video_of_sample :
  video_of sample_result
  = Return (list_to_map
      [("title", VStr (lit "Inner Engineering"));
       ("description", VStr (lit "A talk"));
       ("url", VStr (lit "https://www.youtube.com/watch?v=abc123"));
       ("thumbnail", VStr (lit "https://i.ytimg.com/vi/abc123/hq.jpg"));
       ("date", VStr (lit "2024-03-05"));
       ("source", VStr (lit "YouTube Official"));
       ("tags", VList [lit "video"; lit "youtube"]);
       ("type", VStr (lit "video"))]).
Proof. vm_compute. reflexivity. Qed.

(** ** The examples of section 8 of the specification *)

Example dedup_by_primary_key :
  dedupe_and_merge [mk [("content", "A"); ("url", "u2")]]
    [mk [("content", "A"); ("url", "u1")]] "content"
  = ([mk [("content", "A"); ("url", "u1")]], 0).
Proof. vm_compute. reflexivity. Qed.

Example empty_candidate_added :
  dedupe_and_merge [∅] [mk [("content", "A"); ("url", "u1")]] "content"
  = ([∅; mk [("content", "A"); ("url", "u1")]], 1).
Proof. vm_compute. reflexivity. Qed.

Example duplicate_candidates_collapse :
  dedupe_and_merge [mk [("url", "u1")]; mk [("url", "u1")]] [] "url"
  = ([mk [("url", "u1")]], 1).
Proof. vm_compute. reflexivity. Qed.

Example save_after_load_of_nothing :
  (save_data env_no_key fresh_store (boot Missing)).2
  = {| disk := Stored (stamped env_no_key fresh_store);
       access := ReadWrite;
       dumps := [stamped env_no_key fresh_store];
       stdout := [] |}
  ∧ load_existing_data (save_data env_no_key fresh_store (boot Missing)).2
    = (Return (stamped env_no_key fresh_store),
       (save_data env_no_key fresh_store (boot Missing)).2).
Proof. split; reflexivity. Qed.

Example a_second_run_adds_nothing :
  dumps (smart_update env_one_video
           (boot (Stored (stamped env_one_video
                            (merged env_one_video fresh_store).1)))).2
  = [].
Proof. vm_compute. reflexivity. Qed.

(** * Further properties of the code *)

(** ** [is_duplicate] *)

Lemma matches_pair_match (key : string) (c x : Item) :
  matches key c x = true ↔ pair_match key c x.
Proof.
  unfold matches, pair_match, contains, py_eq.
  rewrite !lookup_total_alt.
  destruct (c !! key) as [a|] eqn:Hck, (x !! key) as [b|] eqn:Hxk; simpl.
  - rewrite bool_decide_eq_true. split.
    + intros ->. left. eauto.
    + intros [(v & Hv1 & Hv2) | ([Hn | Hn] & _)]; congruence.
  - destruct (c !! "url") as [u|] eqn:Hcu, (x !! "url") as [u'|] eqn:Hxu;
      simpl; rewrite ?bool_decide_eq_true; split;
      try (intros [(v & Hv1 & Hv2) | (_ & v & Hv1 & Hv2)]; congruence);
      try done.
    intros ->. right. eauto.
  - destruct (c !! "url") as [u|] eqn:Hcu, (x !! "url") as [u'|] eqn:Hxu;
      simpl; rewrite ?bool_decide_eq_true; split;
      try (intros [(v & Hv1 & Hv2) | (_ & v & Hv1 & Hv2)]; congruence);
      try done.
    intros ->. right. eauto.
  - destruct (c !! "url") as [u|] eqn:Hcu, (x !! "url") as [u'|] eqn:Hxu;
      simpl; rewrite ?bool_decide_eq_true; split;
      try (intros [(v & Hv1 & Hv2) | (_ & v & Hv1 & Hv2)]; congruence);
      try done.
    intros ->. right. eauto.
Qed.

(** Property X1: [is_duplicate] answers true exactly when some existing
    item agrees with the candidate on the key, both carrying it, or,
    the key missing from one of the two, agrees with it on [url], both
    carrying one.  In particular it answers false on the empty list. *)
Theorem is_duplicate_characterised (key : string) (c : Item)
    (E : list Item) :
  (is_duplicate c E key = true ↔ ∃ x, x ∈ E ∧ pair_match key c x)
  ∧ is_duplicate c [] key = false.
Proof.
  split; [| done].
  rewrite is_duplicate_exists.
  split; intros (x & Hx & Hm); exists x; split; try done;
    by apply matches_pair_match.
Qed.

Lemma is_duplicate_characterised_witness :
  is_duplicate (mk [("content", "A"); ("url", "u2")])
    [mk [("content", "B")]; mk [("content", "A"); ("url", "u1")]]
    "content" = true.
Proof.
  apply (is_duplicate_characterised "content").
  exists (mk [("content", "A"); ("url", "u1")]).
  split; [right; left |].
  left. exists (VStr (lit "A")). split; reflexivity.
Defined.

(** Property X2: with the key ['url'], as on the video and article
    paths, the fallback branch adds nothing: the candidate is a
    duplicate exactly when it carries a [url] that some existing item
    carries too. *)
Theorem is_duplicate_url_key (c : Item) (E : list Item) :
  is_duplicate c E "url" = true
  ↔ ∃ u, c !! "url" = Some u ∧ ∃ x, x ∈ E ∧ x !! "url" = Some u.
Proof.
  rewrite is_duplicate_exists. split.
  - intros (x & Hx & Hm). apply matches_pair_match in Hm.
    destruct Hm as [(v & Hc & Hxv) | ([Hn | Hn] & u & Hc & Hxu)];
      [eauto | congruence | congruence].
  - intros (u & Hc & x & Hx & Hxu). exists x. split; [done |].
    apply matches_pair_match. left. eauto.
Qed.

Lemma is_duplicate_url_key_witness :
  is_duplicate (mk [("title", "T"); ("url", "u1")])
    [mk [("url", "u2")]; mk [("title", "S"); ("url", "u1")]] "url" = true.
Proof.
  apply is_duplicate_url_key.
  exists (VStr (lit "u1")). split; [reflexivity |].
  exists (mk [("title", "S"); ("url", "u1")]).
  split; [right; left | reflexivity].
Defined.

(** Property X3: the answer of [is_duplicate] depends only on which
    items the existing list holds, not on their order or multiplicity,
    and a duplicate stays one when the list gains items. *)
Theorem is_duplicate_members_only (key : string) (c : Item)
    (E E' : list Item) :
  ((∀ x, x ∈ E → x ∈ E') →
   is_duplicate c E key = true → is_duplicate c E' key = true)
  ∧ ((∀ x, x ∈ E ↔ x ∈ E') →
     is_duplicate c E key = is_duplicate c E' key).
Proof.
  split.
  - intros Hsub. by apply is_duplicate_mono.
  - intros Hsame.
    destruct (is_duplicate c E key) eqn:H1, (is_duplicate c E' key) eqn:H2;
      try done.
    + assert (is_duplicate c E' key = true); [| congruence].
      eapply is_duplicate_mono; [| exact H1]. intros x. apply Hsame.
    + assert (is_duplicate c E key = true); [| congruence].
      eapply is_duplicate_mono; [| exact H2]. intros x. apply Hsame.
Qed.

Lemma is_duplicate_members_only_witness :
  is_duplicate (mk [("url", "u1")]) [mk [("url", "u1")]; mk [("url", "u2")]]
    "url"
  = is_duplicate (mk [("url", "u1")])
      [mk [("url", "u2")]; mk [("url", "u1")]; mk [("url", "u2")]] "url".
Proof.
  apply is_duplicate_members_only.
  intros x. rewrite !elem_of_cons, !elem_of_nil. tauto.
Defined.

(** ** The merge *)

Lemma accepted_members (key : string) (C : list Item) : ∀ (E : list Item) x,
  x ∈ accepted key C E → x ∈ C ∧ is_duplicate x E key = false.
Proof.
  induction C as [|c cs IH]; intros E x Hx; simpl in Hx.
  - by apply elem_of_nil in Hx.
  - destruct (is_duplicate c E key) eqn:Hd.
    + destruct (IH E x Hx) as [Hin Hnd]. split; [by right | done].
    + apply elem_of_cons in Hx as [-> | Hx]; [split; [left | done] |].
      destruct (IH (c :: E) x Hx) as [Hin Hnd]. split; [by right |].
      destruct (is_duplicate x E key) eqn:HxE; [| done].
      assert (is_duplicate x (c :: E) key = true); [| congruence].
      eapply is_duplicate_mono; [| exact HxE]. intros y Hy. by right.
Qed.

Lemma accepted_nil (key : string) (C : list Item) : ∀ E : list Item,
  accepted key C E = [] → ∀ c, c ∈ C → is_duplicate c E key = true.
Proof.
  induction C as [|c cs IH]; intros E Hacc x Hx.
  - by apply elem_of_nil in Hx.
  - simpl in Hacc. destruct (is_duplicate c E key) eqn:Hd; [| done].
    apply elem_of_cons in Hx as [-> | Hx]; [done | by apply IH].
Qed.

Lemma merge_loop_counter (key : string) (C E : list Item) (n : nat) :
  merge_loop key C (E, n)
  = ((merge_loop key C (E, 0)).1, n + (merge_loop key C (E, 0)).2).
Proof. by rewrite !merge_loop_accepted. Qed.

(** Property X4: after a merge every candidate that carries the key or
    a [url] is a duplicate of the updated list, whether it was added or
    rejected: the updated list accounts for every matchable candidate. *)
Theorem merge_covers_candidates (key : string) (C E : list Item)
    (c : Item) :
  c ∈ C → is_Some (c !! key) ∨ is_Some (c !! "url") →
  is_duplicate c (dedupe_and_merge C E key).1 key = true.
Proof. intros Hc Hf. by apply merge_loop_covers. Qed.

Lemma merge_covers_candidates_witness :
  is_duplicate (mk [("url", "u1")])
    (dedupe_and_merge [mk [("url", "u1")]; mk [("url", "u2")]] [] "url").1
    "url" = true.
Proof.
  apply merge_covers_candidates.
  - left.
  - left. by eexists.
Defined.

(** Property X5: the items a merge adds all come from the candidate
    list and none of them was a duplicate of the list the merge
    started from; it never adds more items than there are candidates. *)
Theorem merge_adds_only_new (key : string) (C E : list Item) :
  (∀ x, x ∈ take (dedupe_and_merge C E key).2 (dedupe_and_merge C E key).1 →
        x ∈ C ∧ is_duplicate x E key = false)
  ∧ ((dedupe_and_merge C E key).2 ≤ length C)%nat.
Proof.
  unfold dedupe_and_merge. rewrite merge_loop_accepted. simpl. split.
  - intros x.
    replace (length (accepted key C E))
      with (length (reverse (accepted key C E)))
      by apply length_reverse.
    rewrite take_app_length, elem_of_reverse.
    apply accepted_members.
  - apply sublist_length, accepted_sublist.
Qed.

Lemma merge_adds_only_new_witness :
  mk [("url", "u3")] ∈ [mk [("url", "u1")]; mk [("url", "u3")]]
  ∧ is_duplicate (mk [("url", "u3")]) [mk [("url", "u1")]] "url" = false.
Proof.
  apply (merge_adds_only_new "url" [mk [("url", "u1")]; mk [("url", "u3")]]
           [mk [("url", "u1")]]).
  vm_compute. left.
Defined.

(** Property X6: merges compose.  Merging the candidates [C1 ++ C2] is
    merging [C1], then merging [C2] into the result; the counts add. *)
Theorem merge_app (key : string) (C1 C2 E : list Item) :
  dedupe_and_merge (C1 ++ C2) E key
  = ((dedupe_and_merge C2 (dedupe_and_merge C1 E key).1 key).1,
     (dedupe_and_merge C1 E key).2
     + (dedupe_and_merge C2 (dedupe_and_merge C1 E key).1 key).2).
Proof.
  unfold dedupe_and_merge. rewrite merge_loop_app.
  destruct (merge_loop key C1 (E, 0)) as [U n]. simpl.
  apply merge_loop_counter.
Qed.

(** Property X7: a merge adds nothing exactly when every candidate is a
    duplicate of the existing list, and then it returns that list as it
    was. *)
Theorem merge_adds_nothing_iff (key : string) (C E : list Item) :
  ((dedupe_and_merge C E key).2 = 0
   ↔ ∀ c, c ∈ C → is_duplicate c E key = true)
  ∧ ((dedupe_and_merge C E key).2 = 0 → (dedupe_and_merge C E key).1 = E).
Proof.
  unfold dedupe_and_merge.
  assert ((merge_loop key C (E, 0)).2 = 0
          → ∀ c, c ∈ C → is_duplicate c E key = true) as Hfwd.
  { rewrite merge_loop_accepted. simpl. intros Hn.
    apply accepted_nil. by apply length_zero_iff_nil. }
  split; [split; [done |] |].
  - intros H. by rewrite merge_loop_all_duplicates.
  - intros Hn. by rewrite merge_loop_all_duplicates by auto.
Qed.

Lemma merge_adds_nothing_iff_witness :
  (dedupe_and_merge [mk [("url", "u1")]; mk [("title", "T"); ("url", "u1")]]
     [mk [("url", "u1")]] "url").2 = 0.
Proof.
  apply merge_adds_nothing_iff.
  intros c Hc.
  apply elem_of_cons in Hc as [-> | Hc]; [reflexivity |].
  apply elem_of_cons in Hc as [-> | Hc]; [reflexivity |].
  by apply elem_of_nil in Hc.
Defined.

(** ** The quote adapter *)

Lemma daily_quote_item_nonempty (e : env) : daily_quote_item e ≠ ∅.
Proof.
  intros H.
  assert (daily_quote_item e !! "content" = None) as Hc
    by (rewrite H; apply lookup_empty).
  done.
Qed.



(** ** The video adapter *)

Lemma video_of_cases (r : search_result) :
  (complete r ∧ ∃ v, video_of r = Return v)
  ∨ (¬ complete r ∧ ∃ k, video_of r = Raise (KeyError k)).
Proof.
  destruct r as [[t|] [d|] [i|] [th|] [p|]];
    try (right; split;
         [ intros (H1 & H2 & H3 & H4 & H5);
           first [by destruct H1 | by destruct H2 | by destruct H3
                 | by destruct H4 | by destruct H5]
         | by eexists ]).
  left. split; [| by eexists].
  repeat split; by eexists.
Qed.

Lemma map_results_incomplete (rs : list search_result) :
  Exists (λ r, ¬ complete r) rs →
  ∀ acc, ∃ k, map_results rs acc = Raise (KeyError k).
Proof.
  induction rs as [|r rs IH]; intros Hex acc.
  - by apply Exists_nil in Hex.
  - simpl.
    destruct (video_of_cases r) as [[Hc [v ->]] | [Hn [k ->]]]; [| eauto].
    apply Exists_cons in Hex as [Hex | Hex]; [done | by apply IH].
Qed.

(** Property X9: one search result that lacks a field the adapter reads
    costs the whole batch.  The [KeyError] is caught by the adapter's
    handler, which answers with the empty list, also for the results
    that were mapped before the faulty one. *)
Theorem video_adapter_all_or_nothing (e : env) (w : world)
    (resp : response) :
  YOUTUBE_API_KEY e ≠ [] →
  execute e (search_request e) = Return resp →
  Exists (λ r, ¬ complete r) (default [] (items resp)) →
  ∃ k, fetch_recent_youtube_videos e w
       = (Return [], printed w [CheckingVideos; VideoError (KeyError k)]).
Proof.
  intros Hk Hx Hex.
  destruct (map_results_incomplete _ Hex []) as [k Hm].
  exists k. rewrite fetch_recent_youtube_videos_run.
  unfold video_candidates, video_log, video_query.
  rewrite !bool_decide_eq_false_2 by done.
  rewrite Hx. simpl. by rewrite Hm.
Qed.

Lemma video_adapter_all_or_nothing_witness :
  ∃ k, fetch_recent_youtube_videos env_broken_result (boot Missing)
       = (Return [],
          printed (boot Missing) [CheckingVideos; VideoError (KeyError k)]).
Proof.
  apply (video_adapter_all_or_nothing env_broken_result (boot Missing)
           {| items := Some [sample_result; broken_result] |}).
  - discriminate.
  - reflexivity.
  - simpl. apply Exists_cons_tl, Exists_cons_hd.
    intros (_ & _ & H & _). by destruct H.
Defined.

Lemma video_of_inv (r : search_result) (v : Item) :
  video_of r = Return v →
  complete r ∧ video_item r v
  ∧ dom v = list_to_set ["title"; "description"; "url"; "thumbnail";
                         "date"; "source"; "tags"; "type"].
Proof.
  destruct r as [[t|] [d|] [i|] [th|] [p|]]; try done.
  unfold video_of. simpl. unfold mret, outcome_ret. intros [= <-].
  split; [repeat split; by eexists |]. split.
  - exists t, d, i, th, p. repeat split; done.
  - rewrite !dom_insert_L, dom_empty_L. set_solver.
Qed.

Lemma map_results_inv (rs : list search_result) : ∀ acc out,
  map_results rs acc = Return out →
  ∃ vs, out = acc ++ vs ∧ Forall2 (λ r v, video_of r = Return v) rs vs.
Proof.
  induction rs as [|r rs IH]; intros acc out H; simpl in H.
  - injection H as <-. exists []. by rewrite app_nil_r.
  - destruct (video_of r) as [v|ex] eqn:Hv; [| done].
    apply IH in H as (vs & -> & Hvs).
    exists (v :: vs). rewrite <-app_assoc. split; [done |]. by constructor.
Qed.

Lemma video_candidates_from_results (e : env) (v : Item) :
  v ∈ video_candidates e → ∃ r, video_of r = Return v.
Proof.
  unfold video_candidates, video_query.
  case_bool_decide as Hk; [intros Hv; by apply elem_of_nil in Hv |].
  destruct (execute e (search_request e)) as [resp|ex]; simpl;
    [| intros Hv; by apply elem_of_nil in Hv].
  destruct (map_results (default [] (items resp)) []) as [out|ex] eqn:Hm;
    [| intros Hv; by apply elem_of_nil in Hv].
  apply map_results_inv in Hm as (vs & -> & Hvs). simpl.
  intros Hv. apply list_elem_of_lookup in Hv as [i Hi].
  destruct (Forall2_lookup_r _ _ _ _ _ Hvs Hi) as (r & _ & Hr). eauto.
Qed.

Lemma video_candidates_inv (e : env) :
  video_candidates e ≠ [] →
  YOUTUBE_API_KEY e ≠ []
  ∧ ∃ resp, execute e (search_request e) = Return resp
            ∧ Forall2 (λ r v, video_of r = Return v)
                (default [] (items resp)) (video_candidates e).
Proof.
  unfold video_candidates, video_query.
  case_bool_decide as Hk; [done |].
  destruct (execute e (search_request e)) as [resp|ex]; simpl; [| done].
  destruct (map_results (default [] (items resp)) []) as [out|ex] eqn:Hm;
    [| done].
  intros _. split; [done |]. exists resp. split; [done |].
  apply map_results_inv in Hm as (vs & -> & Hvs). done.
Qed.

(** Property X10: the video adapter invents nothing.  Whenever it
    returns a non-empty list, the credential was set, the call to the
    platform succeeded, and the list is the image, item for item and in
    order, of the search results of that answer: each result carries
    the five fields read, and its item has exactly the eight fields
    title, description, url, thumbnail, date, source, tags and type,
    filled from that result. *)
Theorem video_adapter_items_well_formed (e : env) (w w' : world)
    (videos : list Item) :
  fetch_recent_youtube_videos e w = (Return videos, w') →
  videos ≠ [] →
  YOUTUBE_API_KEY e ≠ []
  ∧ ∃ resp,
      execute e (search_request e) = Return resp
      ∧ Forall2 (λ r v,
                   complete r ∧ video_item r v
                   ∧ dom v = list_to_set ["title"; "description"; "url";
                                          "thumbnail"; "date"; "source";
                                          "tags"; "type"])
          (default [] (items resp)) videos.
Proof.
  rewrite fetch_recent_youtube_videos_run. intros Heq Hne.
  inversion Heq; subst; clear Heq.
  destruct (video_candidates_inv e Hne) as (Hk & resp & Hx & Hall).
  split; [done |]. exists resp. split; [done |].
  eapply Forall2_impl; [exact Hall |].
  intros r v Hr. by apply video_of_inv.
Qed.

Lemma video_adapter_items_well_formed_witness :
  YOUTUBE_API_KEY env_one_video ≠ []
  ∧ ∃ resp,
      execute env_one_video (search_request env_one_video) = Return resp
      ∧ Forall2 (λ r v,
                   complete r ∧ video_item r v
                   ∧ dom v = list_to_set ["title"; "description"; "url";
                                          "thumbnail"; "date"; "source";
                                          "tags"; "type"])
          (default [] (items resp)) [sample_video].
Proof.
  apply (video_adapter_items_well_formed env_one_video (boot Missing)
           (fetch_recent_youtube_videos env_one_video (boot Missing)).2).
  - vm_compute. reflexivity.
  - discriminate.
Defined.

(** ** The run, continued *)

Lemma merge_quote_cases dq (E : list Item) (n : nat) :
  (∃ q, dq = Some q ∧ quote_is_new dq E = true
        ∧ merge_quote dq (E, n) = (q :: E, S n))
  ∨ (quote_is_new dq E = false ∧ merge_quote dq (E, n) = (E, n)).
Proof.
  unfold merge_quote. destruct dq as [q|]; [| by right].
  cbn [fst snd]. destruct (quote_is_new (Some q) E) eqn:Hq; [left | right];
    eauto.
Qed.

(** Property X12: the books of a run balance.  When the merge phase
    ends, the articles and the in-memory timestamp are as loaded, the
    loaded quotes and videos are suffixes of the new lists, at most one
    quote was added, and the counter [new_items] is exactly the number
    of items the lists gained, at most one more than the number of
    videos fetched. *)
Theorem run_accounting (e : env) (w w1 : world) (data : ContentStore)
    (new_items : nat) :
  gather e w = (Return (data, new_items), w1) →
  ∃ loaded,
    (disk w = Stored loaded ∨ (disk w = Missing ∧ loaded = fresh_store))
    ∧ articles data = articles loaded
    ∧ last_updated data = last_updated loaded
    ∧ quotes loaded `suffix_of` quotes data
    ∧ videos loaded `suffix_of` videos data
    ∧ (length (quotes data) ≤ S (length (quotes loaded)))%nat
    ∧ length (quotes data) + length (videos data)
      = length (quotes loaded) + length (videos loaded) + new_items
    ∧ (new_items ≤ S (length (video_candidates e)))%nat.
Proof.
  intros Hr. apply gather_returns in Hr as (d0 & Hw & Hm).
  exists d0. split; [done |].
  unfold merged in Hm.
  pose proof (sublist_length _ _
                (accepted_sublist "url" (video_candidates e) (videos d0)))
    as Hlen.
  destruct (merge_quote_cases (Some (daily_quote_item e)) (quotes d0) 0)
    as [(q & _ & _ & Hq) | [_ Hq]]; rewrite Hq in Hm; cbn [fst snd] in Hm;
    rewrite !merge_loop_accepted in Hm; simpl in Hm;
    inversion Hm; subst; clear Hm; cbn [quotes videos articles last_updated];
    rewrite length_app, length_reverse.
  - split; [done |]. split; [done |]. split; [by exists [q] |].
    split; [by eexists |]. simpl. lia.
  - split; [done |]. split; [done |]. split; [by exists [] |].
    split; [by eexists |]. simpl. lia.
Qed.

Lemma run_accounting_witness :
  ∃ loaded,
    (disk (boot Missing) = Stored loaded
     ∨ (disk (boot Missing) = Missing ∧ loaded = fresh_store))
    ∧ articles (merged env_one_video fresh_store).1 = articles loaded
    ∧ last_updated (merged env_one_video fresh_store).1 = last_updated loaded
    ∧ quotes loaded `suffix_of` quotes (merged env_one_video fresh_store).1
    ∧ videos loaded `suffix_of` videos (merged env_one_video fresh_store).1
    ∧ (length (quotes (merged env_one_video fresh_store).1)
       ≤ S (length (quotes loaded)))%nat
    ∧ length (quotes (merged env_one_video fresh_store).1)
      + length (videos (merged env_one_video fresh_store).1)
      = length (quotes loaded) + length (videos loaded) + 2
    ∧ (2 ≤ S (length (video_candidates env_one_video)))%nat.
Proof.
  apply (run_accounting env_one_video (boot Missing)
           (gather env_one_video (boot Missing)).2).
  vm_compute. reflexivity.
Defined.

Lemma video_candidates_have_url (e : env) (v : Item) :
  v ∈ video_candidates e → is_Some (v !! "url").
Proof.
  intros Hv. apply video_candidates_from_results in Hv as [r Hr].
  destruct (video_of_inv r v Hr) as (_ & Hi & _).
  destruct Hi as (t & d & i & th & p & _ & _ & _ & _ & _ & _ & _ & Hu & _).
  by eexists.
Qed.

Lemma quote_not_new_after_merge (e : env) (E : list Item) (n : nat) :
  quote_is_new (Some (daily_quote_item e))
    (merge_quote (Some (daily_quote_item e)) (E, n)).1 = false.
Proof.
  destruct (merge_quote_cases (Some (daily_quote_item e)) E n)
    as [(q & Hq & _ & ->) | [Hold ->]]; [| done].
  injection Hq as <-. unfold quote_is_new. cbn [fst].
  apply andb_false_iff. right. apply negb_false_iff.
  apply is_duplicate_exists. exists (daily_quote_item e).
  split; [left |]. apply matches_self. left. by eexists.
Qed.

Lemma merged_again (e : env) (d d' : ContentStore) :
  quotes d' = quotes (merged e d).1 →
  videos d' = videos (merged e d).1 →
  (merged e d').2 = 0.
Proof.
  unfold merged. cbn [fst snd quotes videos]. intros -> ->.
  destruct (merge_quote_cases (Some (daily_quote_item e))
              (merge_quote (Some (daily_quote_item e)) (quotes d, 0)).1 0)
    as [(q & _ & Hnew & _) | [_ ->]].
  { by rewrite quote_not_new_after_merge in Hnew. }
  cbn [fst snd].
  rewrite (merge_loop_all_duplicates "url" (video_candidates e)).
  - done.
  - intros c Hc. apply merge_loop_covers; [done |].
    left. by apply (video_candidates_have_url e).
Qed.

Lemma gather_error_shape e d d' :
  shape d = shape d' → gather_error e d = gather_error e d'.
Proof.
  intros H. unfold gather_error, subscript_error. by rewrite H.
Qed.

Lemma save_data_files e data w :
  files (save_data e data w).2 = after_save e data (files w).
Proof.
  rewrite save_data_run. unfold after_save, files. cbn [fst snd].
  destruct (access w) eqn:Ha, (shape data); simpl; rewrite ?Ha; try done.
  destruct (encodable _); simpl; by rewrite ?Ha.
Qed.

Lemma gather_outcome e w :
  (gather e w).1
  = match loaded_of (disk w) with
    | None =>
        match disk w with
        | Denied => Raise PermissionError
        | _ => Raise JSONDecodeError
        end
    | Some d =>
        match gather_error e d with
        | Some ex => Raise ex
        | None => Return (merged e d)
        end
    end.
Proof.
  destruct (disk w) as [| | |d] eqn:Hd; cbn [loaded_of].
  - pose proof (gather_loaded e w fresh_store (or_intror (conj Hd eq_refl)))
      as Hg.
    destruct (gather_error e fresh_store);
      [destruct Hg as [out ->] | rewrite Hg]; done.
  - destruct (gather_unloadable e w) as [Hg _]. by rewrite (Hg Hd).
  - destruct (gather_unloadable e w) as [_ Hg]. by rewrite (Hg Hd).
  - pose proof (gather_loaded e w d (or_introl Hd)) as Hg.
    destruct (gather_error e d); [destruct Hg as [out ->] | rewrite Hg]; done.
Qed.

Lemma smart_update_run_files e w :
  files (smart_update e w).2 = run_files e (files w).
Proof.
  rewrite smart_update_files, gather_outcome. unfold run_files.
  cbn [files fst snd].
  destruct (loaded_of (disk w)) as [d|]; [| by destruct (disk w)].
  destruct (gather_error e d); [done |].
  destruct (merged e d) as [data n]. cbn [fst snd].
  case_bool_decide; [apply save_data_files | done].
Qed.

Lemma run_files_cases e f :
  run_files e f = f
  ∨ run_files e f = (Garbled, f.1.2, f.2)
  ∨ ∃ d, gather_error e d = None
         ∧ run_files e f
           = (Stored (stamped e (merged e d).1), f.1.2,
              f.2 ++ [stamped e (merged e d).1]).
Proof.
  unfold run_files.
  destruct (loaded_of f.1.1) as [d|]; [| by left].
  destruct (gather_error e d) eqn:He; [by left |].
  case_bool_decide; [| by left].
  unfold after_save.
  destruct (f.1.2); try by left.
  destruct (shape (merged e d).1); [| by left].
  destruct (encodable _); [| by (right; left)].
  right. right. by exists d.
Qed.

Lemma run_files_idempotent e f : run_files e (run_files e f) = run_files e f.
Proof.
  destruct (run_files_cases e f) as [H | [H | (d & He & H)]]; rewrite H.
  - exact H.
  - done.
  - unfold run_files. cbn [fst snd loaded_of].
    rewrite (gather_error_shape e _ d) by done. rewrite He.
    rewrite (merged_again e d (stamped e (merged e d).1)) by done.
    by rewrite bool_decide_eq_false_2 by lia.
Qed.

(** Property X14: a run is idempotent.  Running the script a second
    time in the same environment (same day, same answer of the video
    platform) on the world the first run left adds nothing: the data
    file is not written again and stays as the first run left it. *)
Theorem second_run_writes_nothing (e : env) (w : world) :
  readable w →
  dumps (smart_update e (smart_update e w).2).2
  = dumps (smart_update e w).2
  ∧ disk (smart_update e (smart_update e w).2).2
    = disk (smart_update e w).2.
Proof.
  intros _.
  pose proof (smart_update_run_files e (smart_update e w).2) as H2.
  rewrite (smart_update_run_files e w), run_files_idempotent in H2.
  rewrite <-(smart_update_run_files e w) in H2.
  unfold files in H2. by injection H2 as -> _ ->.
Qed.

Lemma second_run_writes_nothing_witness :
  dumps (smart_update env_one_video
           (smart_update env_one_video (boot Missing)).2).2
  = dumps (smart_update env_one_video (boot Missing)).2.
Proof.
  apply second_run_writes_nothing. left. reflexivity.
Defined.

Lemma duplicate_by_url_inv (c : Item) (E : list Item) :
  is_duplicate c E "url" = true →
  ∃ x, x ∈ E ∧ is_Some (x !! "url") ∧ x !! "url" = c !! "url".
Proof.
  intros Hd. apply is_duplicate_exists in Hd as (x & Hx & Hm).
  apply matches_pair_match in Hm. exists x. split; [done |].
  destruct Hm as [(v & Hc & Hxv) | ([Hn | Hn] & u & Hc & Hxu)];
    [| congruence | congruence].
  split; [by eexists | congruence].
Qed.

(** Property X16: nothing fetched is lost.  When the merge phase of a
    run ends, every video the adapter fetched has its [url] on some
    item of the video list, and the quote of the day is a duplicate of
    the quote list: each fetched item was either added or is already
    represented. *)
Theorem run_keeps_what_it_fetched (e : env) (w w1 : world)
    (data : ContentStore) (new_items : nat) :
  gather e w = (Return (data, new_items), w1) →
  (∀ v, v ∈ video_candidates e →
     ∃ x, x ∈ videos data ∧ is_Some (x !! "url") ∧ x !! "url" = v !! "url")
  ∧ is_duplicate (daily_quote_item e) (quotes data) "content" = true.
Proof.
  intros Hr. apply gather_returns in Hr as (d0 & _ & Hm).
  unfold merged in Hm. inversion Hm; subst; clear Hm.
  cbn [quotes videos]. split.
  - intros v Hv. apply duplicate_by_url_inv.
    apply merge_loop_covers; [done |].
    left. by apply (video_candidates_have_url e).
  - pose proof (quote_not_new_after_merge e (quotes d0) 0) as Hq.
    unfold quote_is_new, truthy in Hq.
    rewrite bool_decide_eq_false_2 in Hq by apply daily_quote_item_nonempty.
    simpl in Hq. by apply negb_false_iff in Hq.
Qed.

Lemma run_keeps_what_it_fetched_witness :
  is_duplicate (daily_quote_item env_one_video)
    (quotes (merged env_one_video fresh_store).1) "content" = true.
Proof.
  apply (run_keeps_what_it_fetched env_one_video (boot Missing)
           (gather env_one_video (boot Missing)).2
           (merged env_one_video fresh_store).1 2).
  vm_compute. reflexivity.
Defined.

(** ** The closing phase *)








(** ** Runs that fail *)

Example run_on_read_only_file :
  smart_update env_no_key (boot_read_only Missing)
  = (Raise PermissionError,
     printed (boot_read_only Missing)
       (gather_log env_no_key fresh_store ++ [ClosingRule])).
Proof. vm_compute. reflexivity. Qed.

Example run_with_lone_surrogate :
  (smart_update env_surrogate (boot Missing)).1 = Raise UnicodeEncodeError
  ∧ disk (smart_update env_surrogate (boot Missing)).2 = Garbled
  ∧ dumps (smart_update env_surrogate (boot Missing)).2 = [].
Proof. vm_compute. done. Qed.

Example run_on_empty_object :
  (smart_update env_no_key (boot (Stored empty_object))).1
  = Raise (KeyError "quotes")
  ∧ stdout (smart_update env_no_key (boot (Stored empty_object))).2
    = [Rule; Starting; Rule; QuoteHeader; CheckingQuote; QuoteFetched].
Proof. vm_compute. done. Qed.

Example run_on_json_list :
  (smart_update env_no_key (boot (Stored not_an_object))).1 = Raise TypeError.
Proof. vm_compute. done. Qed.

Example run_on_quotes_only :
  (smart_update env_no_key (boot (Stored quotes_only))).1
  = Raise (KeyError "videos")
  ∧ length (dumps (smart_update env_no_key (boot (Stored quotes_only))).2) = 1.
Proof. vm_compute. done. Qed.

Example run_on_quotes_only_with_video :
  (smart_update env_one_video (boot (Stored quotes_only))).1
  = Raise (KeyError "videos")
  ∧ dumps (smart_update env_one_video (boot (Stored quotes_only))).2 = [].
Proof. vm_compute. done. Qed.
